(** * The viewport of the tangram-es map renderer

    A shallow embedding of [core/src/view/view.cpp] (class [View]) and of
    [Label::updateTransform], with the properties of the viewport
    specification stated and proved over it.

    Conventions of the embedding.
    - C++ [float] and [double] values are real numbers ([R]); rounding,
      infinities and NaN are outside the model.  The functions of [<cmath>]
      are the real functions of the same name ([cos], [sin], [tan], [pow] as
      [Rpower], [fabsf] as [Rabs], [fmax] as [Rmax]).  What is proved over
      the real numbers is read up to rounding: formulas, identities, and
      results that rest on integer guards or on a concrete view whose edges
      lie well away from a tile boundary.  Which tiles the walk picks when an
      edge of the box lies within rounding distance of a tile boundary is not
      decided by this model.
    - The wrap of the roll and the tile walk are given a second time, in
      module [machine], as the program computes them on [float] and
      [double] (IEEE 754 binary32 and binary64, round to nearest even):
      there the stored roll and the visible tiles of a concrete view are
      evaluated bit for bit.
    - C++ [int] values are integers ([Z]), overflow is outside the model; the
      conversion of a floating value to [int] truncates toward zero
      ([to_int]).
    - [std::set<TileID>] is a duplicate-free list with set insertion.
    - A member function [View::f(args)] is a function [f v args] from the
      object before the call to the object after it.
    - Declarations that live in headers outside the translated sources
      (constants of [view.h] and [mapProjection.h], the matrix constructors
      of glm) are collected in the record [Externals] and taken as a
      parameter. *)

From Stdlib Require Import Reals ZArith List ListSet Permutation Bool String Ascii Lia Lra.
From Stdlib Require Import SpecFloat.
Import ListNotations.
Local Open Scope R_scope.

(** ** Numbers *)

(** [(int) x]: conversion of a floating value to [int], toward zero. *)
Definition to_int (x : R) : Z := if Rle_dec 0 x then Zfloor x else Zceil x.

(** The comparison [x < y] as a boolean. *)
Definition Rltb (x y : R) : bool := if Rlt_dec x y then true else false.

(** The comparison [x > y] as a boolean. *)
Definition Rgtb (x y : R) : bool := Rltb y x.

(** Modelled from the spec: the macros [PI], [TWO_PI] and [HALF_PI] are not
    among the translated sources; the specification writes π, 2π and π/2.
    [PI] is the real number π of the standard library. *)
Definition TWO_PI : R := 2 * PI.

Definition HALF_PI : R := PI / 2.

(** ** Vectors and matrices of glm

    Modelled from the spec: glm is not among the translated sources.  The
    specification speaks of 4x4 matrices, of transforming a point by a
    matrix and of dividing by the homogeneous [w] component; the types and
    operations below are the usual ones, with matrices stored by columns as
    glm stores them. *)

Module vec2.
Record t : Type := mk { x : R; y : R }.
End vec2.

Module vec3.
Record t : Type := mk { x : R; y : R; z : R }.
End vec3.

Module dvec3.
Record t : Type := mk { x : R; y : R; z : R }.
End dvec3.

Module vec4.
Record t : Type := mk { x : R; y : R; z : R; w : R }.

(** [v * s] *)
Definition scale (v : t) (s : R) : t := mk (x v * s) (y v * s) (z v * s) (w v * s).

(** [v / s] *)
Definition div (v : t) (s : R) : t := mk (x v / s) (y v / s) (z v / s) (w v / s).

(** [a + b] *)
Definition add (a b : t) : t := mk (x a + x b) (y a + y b) (z a + z b) (w a + w b).
End vec4.

(** A [glm::mat4] is stored by columns. *)
Module mat4.
Record t : Type := mk { c0 : vec4.t; c1 : vec4.t; c2 : vec4.t; c3 : vec4.t }.

(** [m * v]: the linear combination of the columns of [m]. *)
Definition mul_vec (m : t) (v : vec4.t) : vec4.t :=
  vec4.add (vec4.add (vec4.add (vec4.scale (c0 m) (vec4.x v)) (vec4.scale (c1 m) (vec4.y v)))
                     (vec4.scale (c2 m) (vec4.z v)))
           (vec4.scale (c3 m) (vec4.w v)).

(** [a * b]: column [j] of the product is [a] applied to column [j] of [b]. *)
Definition mul (a b : t) : t :=
  mk (mul_vec a (c0 b)) (mul_vec a (c1 b)) (mul_vec a (c2 b)) (mul_vec a (c3 b)).

Definition identity : t :=
  mk (vec4.mk 1 0 0 0) (vec4.mk 0 1 0 0) (vec4.mk 0 0 1 0) (vec4.mk 0 0 0 1).
End mat4.

(** [glm::dmat2(a, b, c, d)] *)
Module dmat2.
Record t : Type := mk { m00 : R; m01 : R; m10 : R; m11 : R }.
End dmat2.

(** Modelled from the spec: [glm::clamp] is not among the translated sources;
    the specification says that a zoom mutation "clamps to [0, maxZoom]".
    This is glm's [min(max(x, minVal), maxVal)]. *)
Definition glm_clamp (x minVal maxVal : R) : R := Rmin (Rmax x minVal) maxVal.

(** Modelled from the spec: [glm::mod] is not among the translated sources;
    the specification says that a roll mutation "wraps into [0, 2π)" (wrap,
    not clamp) and that any roll is wrapped modulo a full turn.  This is
    glm's [x - y * floor(x / y)]. *)
Definition glm_mod (x y : R) : R := x - y * IZR (Zfloor (x / y)).

(** ** Tiles *)

(** [TileID(x, y, z)] *)
Record TileID : Type := mkTileID { tile_x : Z; tile_y : Z; tile_z : Z }.

Definition TileID_eq_dec (a b : TileID) : {a = b} + {a <> b}.
Proof. decide equality; apply Z.eq_dec. Defined.

(** [std::set<TileID>::insert] *)
Definition insert (t : TileID) (s : set TileID) : set TileID := set_add TileID_eq_dec t s.

(** ** The platform log *)

(** A computation that may call [logMsg]: its value and the messages it
    emitted, in order. *)
Definition Logged (A : Type) : Type := (A * list string)%type.

Definition ret {A : Type} (a : A) : Logged A := (a, []).

Definition bind {A B : Type} (m : Logged A) (f : A -> Logged B) : Logged B :=
  let (a, l1) := m in let (b, l2) := f a in (b, l1 ++ l2)%list.

Definition logMsg (msg : string) : Logged unit := (tt, [msg]).

Notation "x <- m ;; k" := (bind m (fun x => k))
  (at level 61, m at next level, right associativity).

Definition newline : string := String "010"%char EmptyString.

Definition invalid_projection_msg : string :=
  ("Error: not a valid map projection specified." ++ newline ++
   " Setting map projection to mercator by default")%string.

(** ** The projection *)

(** The value of a [ProjectionType] enumeration object. *)
Definition ProjectionType : Type := Z.

(** The implementations of [MapProjection] that [View] instantiates. *)
Inductive MapProjection : Type := MercatorProjection.

(** ** Declarations outside the translated sources *)

Record Externals : Type := mkExternals {
  (** [MapProjection::HALF_CIRCUMFERENCE] *)
  HALF_CIRCUMFERENCE : R;
  (** [View::s_maxZoom] *)
  s_maxZoom : R;
  (** [ProjectionType::mercator] *)
  mercator : ProjectionType;
  (** [glm::lookAt(eye, center, up)] *)
  lookAt : vec3.t -> vec3.t -> vec3.t -> mat4.t;
  (** [glm::perspective(fovy, aspect, near, far)] *)
  perspective : R -> R -> R -> R -> mat4.t
}.

(** ** The state of a [View] *)

Record View : Type := mkView {
  m_projection : option MapProjection;   (* std::unique_ptr<MapProjection> *)
  m_visibleTiles : set TileID;
  m_pos : dvec3.t;
  m_view : mat4.t;
  m_proj : mat4.t;
  m_viewProj : mat4.t;
  m_roll : R;
  m_zoom : R;
  m_initZoom : R;
  m_width : R;
  m_height : R;
  m_vpWidth : Z;
  m_vpHeight : Z;
  m_aspect : R;
  m_pixelScale : R;
  m_pixelsPerTile : R;
  m_isZoomIn : bool;
  m_dirty : bool;
  m_changed : bool
}.

(** Assignment to one member. *)
Definition set_m_projection (a : option MapProjection) (v : View) : View :=
  {| m_projection := a; m_visibleTiles := m_visibleTiles v; m_pos := m_pos v;
     m_view := m_view v; m_proj := m_proj v; m_viewProj := m_viewProj v; m_roll := m_roll v;
     m_zoom := m_zoom v; m_initZoom := m_initZoom v; m_width := m_width v;
     m_height := m_height v; m_vpWidth := m_vpWidth v; m_vpHeight := m_vpHeight v;
     m_aspect := m_aspect v; m_pixelScale := m_pixelScale v;
     m_pixelsPerTile := m_pixelsPerTile v; m_isZoomIn := m_isZoomIn v; m_dirty := m_dirty v;
     m_changed := m_changed v |}.

Definition set_m_visibleTiles (a : set TileID) (v : View) : View :=
  {| m_projection := m_projection v; m_visibleTiles := a; m_pos := m_pos v; m_view := m_view v;
     m_proj := m_proj v; m_viewProj := m_viewProj v; m_roll := m_roll v; m_zoom := m_zoom v;
     m_initZoom := m_initZoom v; m_width := m_width v; m_height := m_height v;
     m_vpWidth := m_vpWidth v; m_vpHeight := m_vpHeight v; m_aspect := m_aspect v;
     m_pixelScale := m_pixelScale v; m_pixelsPerTile := m_pixelsPerTile v;
     m_isZoomIn := m_isZoomIn v; m_dirty := m_dirty v; m_changed := m_changed v |}.

Definition set_m_pos (a : dvec3.t) (v : View) : View :=
  {| m_projection := m_projection v; m_visibleTiles := m_visibleTiles v; m_pos := a;
     m_view := m_view v; m_proj := m_proj v; m_viewProj := m_viewProj v; m_roll := m_roll v;
     m_zoom := m_zoom v; m_initZoom := m_initZoom v; m_width := m_width v;
     m_height := m_height v; m_vpWidth := m_vpWidth v; m_vpHeight := m_vpHeight v;
     m_aspect := m_aspect v; m_pixelScale := m_pixelScale v;
     m_pixelsPerTile := m_pixelsPerTile v; m_isZoomIn := m_isZoomIn v; m_dirty := m_dirty v;
     m_changed := m_changed v |}.

Definition set_m_view (a : mat4.t) (v : View) : View :=
  {| m_projection := m_projection v; m_visibleTiles := m_visibleTiles v; m_pos := m_pos v;
     m_view := a; m_proj := m_proj v; m_viewProj := m_viewProj v; m_roll := m_roll v;
     m_zoom := m_zoom v; m_initZoom := m_initZoom v; m_width := m_width v;
     m_height := m_height v; m_vpWidth := m_vpWidth v; m_vpHeight := m_vpHeight v;
     m_aspect := m_aspect v; m_pixelScale := m_pixelScale v;
     m_pixelsPerTile := m_pixelsPerTile v; m_isZoomIn := m_isZoomIn v; m_dirty := m_dirty v;
     m_changed := m_changed v |}.

Definition set_m_proj (a : mat4.t) (v : View) : View :=
  {| m_projection := m_projection v; m_visibleTiles := m_visibleTiles v; m_pos := m_pos v;
     m_view := m_view v; m_proj := a; m_viewProj := m_viewProj v; m_roll := m_roll v;
     m_zoom := m_zoom v; m_initZoom := m_initZoom v; m_width := m_width v;
     m_height := m_height v; m_vpWidth := m_vpWidth v; m_vpHeight := m_vpHeight v;
     m_aspect := m_aspect v; m_pixelScale := m_pixelScale v;
     m_pixelsPerTile := m_pixelsPerTile v; m_isZoomIn := m_isZoomIn v; m_dirty := m_dirty v;
     m_changed := m_changed v |}.

Definition set_m_viewProj (a : mat4.t) (v : View) : View :=
  {| m_projection := m_projection v; m_visibleTiles := m_visibleTiles v; m_pos := m_pos v;
     m_view := m_view v; m_proj := m_proj v; m_viewProj := a; m_roll := m_roll v;
     m_zoom := m_zoom v; m_initZoom := m_initZoom v; m_width := m_width v;
     m_height := m_height v; m_vpWidth := m_vpWidth v; m_vpHeight := m_vpHeight v;
     m_aspect := m_aspect v; m_pixelScale := m_pixelScale v;
     m_pixelsPerTile := m_pixelsPerTile v; m_isZoomIn := m_isZoomIn v; m_dirty := m_dirty v;
     m_changed := m_changed v |}.

Definition set_m_roll (a : R) (v : View) : View :=
  {| m_projection := m_projection v; m_visibleTiles := m_visibleTiles v; m_pos := m_pos v;
     m_view := m_view v; m_proj := m_proj v; m_viewProj := m_viewProj v; m_roll := a;
     m_zoom := m_zoom v; m_initZoom := m_initZoom v; m_width := m_width v;
     m_height := m_height v; m_vpWidth := m_vpWidth v; m_vpHeight := m_vpHeight v;
     m_aspect := m_aspect v; m_pixelScale := m_pixelScale v;
     m_pixelsPerTile := m_pixelsPerTile v; m_isZoomIn := m_isZoomIn v; m_dirty := m_dirty v;
     m_changed := m_changed v |}.

Definition set_m_zoom (a : R) (v : View) : View :=
  {| m_projection := m_projection v; m_visibleTiles := m_visibleTiles v; m_pos := m_pos v;
     m_view := m_view v; m_proj := m_proj v; m_viewProj := m_viewProj v; m_roll := m_roll v;
     m_zoom := a; m_initZoom := m_initZoom v; m_width := m_width v; m_height := m_height v;
     m_vpWidth := m_vpWidth v; m_vpHeight := m_vpHeight v; m_aspect := m_aspect v;
     m_pixelScale := m_pixelScale v; m_pixelsPerTile := m_pixelsPerTile v;
     m_isZoomIn := m_isZoomIn v; m_dirty := m_dirty v; m_changed := m_changed v |}.

Definition set_m_width (a : R) (v : View) : View :=
  {| m_projection := m_projection v; m_visibleTiles := m_visibleTiles v; m_pos := m_pos v;
     m_view := m_view v; m_proj := m_proj v; m_viewProj := m_viewProj v; m_roll := m_roll v;
     m_zoom := m_zoom v; m_initZoom := m_initZoom v; m_width := a; m_height := m_height v;
     m_vpWidth := m_vpWidth v; m_vpHeight := m_vpHeight v; m_aspect := m_aspect v;
     m_pixelScale := m_pixelScale v; m_pixelsPerTile := m_pixelsPerTile v;
     m_isZoomIn := m_isZoomIn v; m_dirty := m_dirty v; m_changed := m_changed v |}.

Definition set_m_height (a : R) (v : View) : View :=
  {| m_projection := m_projection v; m_visibleTiles := m_visibleTiles v; m_pos := m_pos v;
     m_view := m_view v; m_proj := m_proj v; m_viewProj := m_viewProj v; m_roll := m_roll v;
     m_zoom := m_zoom v; m_initZoom := m_initZoom v; m_width := m_width v; m_height := a;
     m_vpWidth := m_vpWidth v; m_vpHeight := m_vpHeight v; m_aspect := m_aspect v;
     m_pixelScale := m_pixelScale v; m_pixelsPerTile := m_pixelsPerTile v;
     m_isZoomIn := m_isZoomIn v; m_dirty := m_dirty v; m_changed := m_changed v |}.

Definition set_m_vpWidth (a : Z) (v : View) : View :=
  {| m_projection := m_projection v; m_visibleTiles := m_visibleTiles v; m_pos := m_pos v;
     m_view := m_view v; m_proj := m_proj v; m_viewProj := m_viewProj v; m_roll := m_roll v;
     m_zoom := m_zoom v; m_initZoom := m_initZoom v; m_width := m_width v;
     m_height := m_height v; m_vpWidth := a; m_vpHeight := m_vpHeight v;
     m_aspect := m_aspect v; m_pixelScale := m_pixelScale v;
     m_pixelsPerTile := m_pixelsPerTile v; m_isZoomIn := m_isZoomIn v; m_dirty := m_dirty v;
     m_changed := m_changed v |}.

Definition set_m_vpHeight (a : Z) (v : View) : View :=
  {| m_projection := m_projection v; m_visibleTiles := m_visibleTiles v; m_pos := m_pos v;
     m_view := m_view v; m_proj := m_proj v; m_viewProj := m_viewProj v; m_roll := m_roll v;
     m_zoom := m_zoom v; m_initZoom := m_initZoom v; m_width := m_width v;
     m_height := m_height v; m_vpWidth := m_vpWidth v; m_vpHeight := a; m_aspect := m_aspect v;
     m_pixelScale := m_pixelScale v; m_pixelsPerTile := m_pixelsPerTile v;
     m_isZoomIn := m_isZoomIn v; m_dirty := m_dirty v; m_changed := m_changed v |}.

Definition set_m_aspect (a : R) (v : View) : View :=
  {| m_projection := m_projection v; m_visibleTiles := m_visibleTiles v; m_pos := m_pos v;
     m_view := m_view v; m_proj := m_proj v; m_viewProj := m_viewProj v; m_roll := m_roll v;
     m_zoom := m_zoom v; m_initZoom := m_initZoom v; m_width := m_width v;
     m_height := m_height v; m_vpWidth := m_vpWidth v; m_vpHeight := m_vpHeight v;
     m_aspect := a; m_pixelScale := m_pixelScale v; m_pixelsPerTile := m_pixelsPerTile v;
     m_isZoomIn := m_isZoomIn v; m_dirty := m_dirty v; m_changed := m_changed v |}.

Definition set_m_pixelScale (a : R) (v : View) : View :=
  {| m_projection := m_projection v; m_visibleTiles := m_visibleTiles v; m_pos := m_pos v;
     m_view := m_view v; m_proj := m_proj v; m_viewProj := m_viewProj v; m_roll := m_roll v;
     m_zoom := m_zoom v; m_initZoom := m_initZoom v; m_width := m_width v;
     m_height := m_height v; m_vpWidth := m_vpWidth v; m_vpHeight := m_vpHeight v;
     m_aspect := m_aspect v; m_pixelScale := a; m_pixelsPerTile := m_pixelsPerTile v;
     m_isZoomIn := m_isZoomIn v; m_dirty := m_dirty v; m_changed := m_changed v |}.

Definition set_m_isZoomIn (a : bool) (v : View) : View :=
  {| m_projection := m_projection v; m_visibleTiles := m_visibleTiles v; m_pos := m_pos v;
     m_view := m_view v; m_proj := m_proj v; m_viewProj := m_viewProj v; m_roll := m_roll v;
     m_zoom := m_zoom v; m_initZoom := m_initZoom v; m_width := m_width v;
     m_height := m_height v; m_vpWidth := m_vpWidth v; m_vpHeight := m_vpHeight v;
     m_aspect := m_aspect v; m_pixelScale := m_pixelScale v;
     m_pixelsPerTile := m_pixelsPerTile v; m_isZoomIn := a; m_dirty := m_dirty v;
     m_changed := m_changed v |}.

Definition set_m_dirty (a : bool) (v : View) : View :=
  {| m_projection := m_projection v; m_visibleTiles := m_visibleTiles v; m_pos := m_pos v;
     m_view := m_view v; m_proj := m_proj v; m_viewProj := m_viewProj v; m_roll := m_roll v;
     m_zoom := m_zoom v; m_initZoom := m_initZoom v; m_width := m_width v;
     m_height := m_height v; m_vpWidth := m_vpWidth v; m_vpHeight := m_vpHeight v;
     m_aspect := m_aspect v; m_pixelScale := m_pixelScale v;
     m_pixelsPerTile := m_pixelsPerTile v; m_isZoomIn := m_isZoomIn v; m_dirty := a;
     m_changed := m_changed v |}.

Definition set_m_changed (a : bool) (v : View) : View :=
  {| m_projection := m_projection v; m_visibleTiles := m_visibleTiles v; m_pos := m_pos v;
     m_view := m_view v; m_proj := m_proj v; m_viewProj := m_viewProj v; m_roll := m_roll v;
     m_zoom := m_zoom v; m_initZoom := m_initZoom v; m_width := m_width v;
     m_height := m_height v; m_vpWidth := m_vpWidth v; m_vpHeight := m_vpHeight v;
     m_aspect := m_aspect v; m_pixelScale := m_pixelScale v;
     m_pixelsPerTile := m_pixelsPerTile v; m_isZoomIn := m_isZoomIn v; m_dirty := m_dirty v;
     m_changed := a |}.

(** ** The tile walk of [View::updateTiles]

    The two nested [while] loops, over the locals they do not modify.  Each
    loop increments its tile index and stops at [maxTileIndex] at the latest,
    so the distance of the index to [maxTileIndex] bounds the number of
    iterations; it is the fuel of the recursive functions below. *)

Section TileWalk.

Variables (tileSize invTileSize vpRightEdge vpTopEdge vpBottomEdge : R).
Variables (maxTileIndex : Z) (zoom : R).

(** [while (y < vpTopEdge && tileY < maxTileIndex)
      { insert(TileID(tileX, tileY, m_zoom)); tileY++; y += tileSize; }] *)
Fixpoint inner_loop_fuel (fuel : nat) (tileX : Z) (y : R) (tileY : Z)
  (tiles : set TileID) : set TileID :=
  match fuel with
  | O => tiles
  | S fuel' =>
      if Rltb y vpTopEdge && (tileY <? maxTileIndex)%Z
      then inner_loop_fuel fuel' tileX (y + tileSize) (tileY + 1)%Z
             (insert (mkTileID tileX tileY (to_int zoom)) tiles)
      else tiles
  end.

Definition inner_loop (tileX : Z) (y : R) (tileY : Z) (tiles : set TileID) : set TileID :=
  inner_loop_fuel (Z.to_nat (maxTileIndex - tileY)) tileX y tileY tiles.

(** The row at which the columns after the first start:
    [tileY = (int) vpBottomEdge * invTileSize;] the cast binds to
    [vpBottomEdge] alone, and the assignment converts the product to [int]. *)
Definition reset_tileY : Z := to_int (IZR (to_int vpBottomEdge) * invTileSize).

(** [while (x < vpRightEdge && tileX < maxTileIndex)
      { <inner loop>; tileY = (int) vpBottomEdge * invTileSize;
        y = tileY * tileSize; tileX++; x += tileSize; }] *)
Fixpoint outer_loop_fuel (fuel : nat) (x : R) (tileX : Z) (y : R) (tileY : Z)
  (tiles : set TileID) : set TileID :=
  match fuel with
  | O => tiles
  | S fuel' =>
      if Rltb x vpRightEdge && (tileX <? maxTileIndex)%Z
      then outer_loop_fuel fuel' (x + tileSize) (tileX + 1)%Z
             (IZR reset_tileY * tileSize) reset_tileY
             (inner_loop tileX y tileY tiles)
      else tiles
  end.

Definition outer_loop (x : R) (tileX : Z) (y : R) (tileY : Z) (tiles : set TileID)
  : set TileID :=
  outer_loop_fuel (Z.to_nat (maxTileIndex - tileX)) x tileX y tileY tiles.

End TileWalk.

(** ** The member functions of [View] *)

Section ViewOperations.

Variable ext : Externals.

Definition setMapProjection (v : View) (_projType : ProjectionType) : Logged View :=
  v' <- (if (_projType =? mercator ext)%Z
         then ret (set_m_projection (Some MercatorProjection) v)
         else _ <- logMsg invalid_projection_msg ;;
              ret (set_m_projection (Some MercatorProjection) v)) ;;
  ret (set_m_dirty true v').

Definition setPixelScale (v : View) (_pixelsPerPoint : R) : View :=
  set_m_dirty true (set_m_pixelScale _pixelsPerPoint v).

Definition setSize (v : View) (_width _height : Z) : View :=
  set_m_dirty true
    (set_m_aspect (IZR _width / IZR _height)
       (set_m_vpHeight _height (set_m_vpWidth _width v))).

Definition setPosition (v : View) (_x _y : R) : View :=
  set_m_dirty true (set_m_pos (dvec3.mk _x _y (dvec3.z (m_pos v))) v).

Definition setZoom (v : View) (_z : R) : View :=
  set_m_dirty true (set_m_zoom (glm_clamp _z 0 (s_maxZoom ext)) v).

Definition setRoll (v : View) (_roll : R) : View :=
  set_m_dirty true (set_m_roll (glm_mod _roll TWO_PI) v).

Definition translate (v : View) (_dx _dy : R) : View :=
  setPosition v (dvec3.x (m_pos v) + _dx) (dvec3.y (m_pos v) + _dy).

Definition zoom (v : View) (_dz : R) : View :=
  let v' := if Rgtb _dz 0 then set_m_isZoomIn true v else set_m_isZoomIn false v in
  setZoom v' (m_zoom v' + _dz).

Definition roll (v : View) (_droll : R) : View :=
  setRoll v (m_roll v + _droll).

Definition getBoundsRect (v : View) : dmat2.t :=
  let hw := m_width v * 0.5 in
  let hh := m_height v * 0.5 in
  dmat2.mk (dvec3.x (m_pos v) - hw) (dvec3.y (m_pos v) - hh)
           (dvec3.x (m_pos v) + hw) (dvec3.y (m_pos v) + hh).

Definition toWorldDistance (v : View) (_screenDistance : R) : R :=
  let metersPerTile := 2 * HALF_CIRCUMFERENCE ext * Rpower 2 (- m_zoom v) in
  _screenDistance * metersPerTile / (m_pixelScale v * m_pixelsPerTile v).

(** The values left in [_screenX] and [_screenY]. *)
Definition toWorldDisplacement (v : View) (_screenX _screenY : R) : R * R :=
  let metersPerPixel := toWorldDistance v 1 in
  let cos_r := cos (m_roll v) in
  let sin_r := sin (m_roll v) in
  let x := (_screenX * cos_r + _screenY * sin_r) * metersPerPixel in
  let y := (_screenX * - sin_r + _screenY * cos_r) * metersPerPixel in
  (x, y).

Definition getVisibleTiles (v : View) : set TileID := m_visibleTiles v.

Definition updateMatrices (v : View) : View :=
  let worldTileSize := 2 * HALF_CIRCUMFERENCE ext * Rpower 2 (- m_zoom v) in
  let screenTileSize := m_pixelsPerTile v * m_pixelScale v in
  let height := IZR (m_vpHeight v) * worldTileSize / screenTileSize in
  let width := height * m_aspect v in
  let fovy := if Rgtb width height then PI * 0.5 / m_aspect v else PI * 0.5 in
  let pos_z := height * 0.5 / tan (fovy * 0.5) in
  let near := pos_z / 50 in
  let up := vec3.mk (cos (m_roll v + HALF_PI)) (sin (m_roll v + HALF_PI)) 0 in
  let view := lookAt ext (vec3.mk 0 0 0) (vec3.mk 0 0 (-1)) up in
  let proj := perspective ext fovy (m_aspect v) near (pos_z + 1) in
  set_m_viewProj (mat4.mul proj view)
    (set_m_proj proj
       (set_m_view view
          (set_m_pos (dvec3.mk (dvec3.x (m_pos v)) (dvec3.y (m_pos v)) pos_z)
             (set_m_width width (set_m_height height v))))).

Definition updateTiles (v : View) : View :=
  let tileSize := 2 * HALF_CIRCUMFERENCE ext * Rpower 2 (IZR (- to_int (m_zoom v))) in
  let invTileSize := 1 / tileSize in
  let cos_r := cos (m_roll v) in
  let sin_r := sin (m_roll v) in
  let width := Rabs (m_height v * sin_r) + Rabs (m_width v * cos_r) in
  let height := Rabs (m_width v * sin_r) + Rabs (m_height v * cos_r) in
  let vpLeftEdge := dvec3.x (m_pos v) - width * 0.5 + HALF_CIRCUMFERENCE ext in
  let vpRightEdge := vpLeftEdge + width in
  let vpBottomEdge := - dvec3.y (m_pos v) - height * 0.5 + HALF_CIRCUMFERENCE ext in
  let vpTopEdge := vpBottomEdge + height in
  let tileX := to_int (Rmax 0 (vpLeftEdge * invTileSize)) in
  let tileY := to_int (Rmax 0 (vpBottomEdge * invTileSize)) in
  let x := IZR tileX * tileSize in
  let y := IZR tileY * tileSize in
  let maxTileIndex := to_int (Rpower 2 (m_zoom v)) in
  set_m_visibleTiles
    (outer_loop tileSize invTileSize vpRightEdge vpTopEdge vpBottomEdge maxTileIndex
       (m_zoom v) x tileX y tileY [])
    v.

Definition update (v : View) : View :=
  if negb (m_dirty v) then set_m_changed false v
  else set_m_changed true (set_m_dirty false (updateTiles (updateMatrices v))).

(** The constructor, from the object as its member initialisers leave it. *)
Definition View_new (init : View) (_width _height : Z) (_projType : ProjectionType)
  : Logged View :=
  v <- setMapProjection init _projType ;;
  let v := setSize v _width _height in
  let v := setZoom v (m_initZoom v) in
  let v := setPosition v 0 0 in
  ret (set_m_dirty true (set_m_changed false v)).

End ViewOperations.

(** ** Single precision

    IEEE 754 binary32 with round-to-nearest-even, the arithmetic of the C++
    type [float].  A value is a [spec_float] of the standard library: a
    signed zero, an infinity, NaN, or [(-1)^s * m * 2^e]. *)

Module binary32.

Definition t : Type := spec_float.

(** 24 bits of mantissa, exponents below 128. *)
Definition prec : Z := 24.
Definition emax : Z := 128.

(** The [float] nearest to an integer. *)
Definition of_Z (n : Z) : t := binary_normalize prec emax n 0 false.

Definition add : t -> t -> t := SFadd prec emax.
Definition sub : t -> t -> t := SFsub prec emax.
Definition mul : t -> t -> t := SFmul prec emax.
Definition div : t -> t -> t := SFdiv prec emax.

Definition opp : t -> t := SFopp.

(** [fabsf] *)
Definition abs : t -> t := SFabs.

(** [x < y] on [float]: false when either side is NaN. *)
Definition ltb : t -> t -> bool := SFltb.

(** [(int) x]: conversion to [int], toward zero.  The conversion of a value
    that is not finite is undefined in C++; it is 0 here. *)
Definition to_int (x : t) : Z :=
  match x with
  | S754_finite s m e =>
      let n := if (0 <=? e)%Z then (Zpos m * 2 ^ e)%Z else Z.shiftr (Zpos m) (- e) in
      if s then (- n)%Z else n
  | _ => 0%Z
  end.

(** [floorf]: the largest whole number not above [x].  A value with a
    non-negative exponent is whole already; otherwise the mantissa is cut at
    the binary point, and a negative value with a fractional part moves one
    further down.  The result has at most 24 bits and is exact. *)
Definition floor (x : t) : t :=
  match x with
  | S754_finite s m e =>
      if (0 <=? e)%Z then x
      else
        let q := Z.shiftr (Zpos m) (- e) in
        let whole := (Z.shiftl q (- e) =? Zpos m)%Z in
        if s then binary_normalize prec emax (if whole then - q else - (q + 1))%Z 0 true
        else binary_normalize prec emax q 0 false
  | _ => x
  end.

(** The real number a finite [float] stands for (0 for the others). *)
Definition to_R (x : t) : R :=
  match x with
  | S754_finite s m e =>
      let a := if (0 <=? e)%Z then IZR (Zpos m * 2 ^ e)
               else IZR (Zpos m) / IZR (2 ^ (- e)) in
      if s then - a else a
  | _ => 0
  end.

(** Modelled from the spec: the macro [TWO_PI] is not among the translated
    sources; the specification writes 2π.  [(float)TWO_PI] is the [float]
    nearest to 2π, 13176795 * 2^-21 = 6.2831855 (see [TWO_PI_nearest]). *)
Definition TWO_PI : t := S754_finite false 13176795 (-21).

(** Modelled from the spec: glm is not among the translated sources; the
    specification says that the roll is wrapped modulo a full turn.  This is
    glm's [mod(x, y) = x - y * floor(x / y)], every operation on [float]. *)
Definition glm_mod (x y : t) : t := sub x (mul y (floor (div x y))).

End binary32.

(** ** Double precision

    IEEE 754 binary64, the arithmetic of the C++ type [double], and the
    conversions between [float] and [double]. *)

Module binary64.

Definition t : Type := spec_float.

Definition prec : Z := 53.
Definition emax : Z := 1024.

(** The [double] nearest to an integer. *)
Definition of_Z (n : Z) : t := binary_normalize prec emax n 0 false.

Definition add : t -> t -> t := SFadd prec emax.
Definition sub : t -> t -> t := SFsub prec emax.
Definition mul : t -> t -> t := SFmul prec emax.
Definition div : t -> t -> t := SFdiv prec emax.
Definition opp : t -> t := SFopp.
Definition ltb : t -> t -> bool := SFltb.

(** A [float] as a [double]: the same number, with the mantissa of a
    [double]. *)
Definition of_binary32 (x : binary32.t) : t :=
  match x with
  | S754_finite s m e => binary_normalize prec emax (cond_Zopp s (Zpos m)) e s
  | _ => x
  end.

(** A [double] stored into a [float]: rounded to the nearest [float]. *)
Definition to_binary32 (x : t) : binary32.t :=
  match x with
  | S754_finite s m e =>
      binary_normalize binary32.prec binary32.emax (cond_Zopp s (Zpos m)) e s
  | _ => x
  end.

(** [(int) x], toward zero. *)
Definition to_int (x : t) : Z := binary32.to_int x.

(** [fmax]: the larger argument; the other one when one is NaN. *)
Definition fmax (x y : t) : t :=
  match x, y with
  | S754_nan, _ => y
  | _, S754_nan => x
  | _, _ => if ltb x y then y else x
  end.

(** A whole number. *)
Definition is_whole (x : t) : bool :=
  match x with
  | S754_zero _ => true
  | S754_finite _ m e =>
      (0 <=? e)%Z || (Z.shiftl (Z.shiftr (Zpos m) (- e)) (- e) =? Zpos m)%Z
  | _ => false
  end.

Definition is_zero (x : t) : bool :=
  match x with S754_zero _ => true | _ => false end.

End binary64.

(** ** The view in machine arithmetic

    The part of [View] that decides the stored roll and the visible tiles,
    with every operation rounded as the program rounds it.  The members
    are typed as the expressions of [view.cpp] treat them: the position is
    a [glm::dvec3] of [double], roll, zoom, extents, aspect ratio and pixel
    measures are [float], the screen size is [int].  The projection and
    the matrices do not enter this arithmetic and are left out. *)

Module machine.

(** Modelled from the spec: [<cmath>] is not among the translated sources.
    [pow(2, y)], [cos] and [sin] are functions on [double].  Where the
    result is exact every implementation returns it: [pow(2, y)] for a
    whole number [y], [cos(0) = 1] and [sin(0) = 0].  Elsewhere the result
    is the library's, a parameter. *)
Record Libm : Type := mkLibm {
  libm_pow2 : binary64.t -> binary64.t;
  libm_cos : binary64.t -> binary64.t;
  libm_sin : binary64.t -> binary64.t
}.

Section Cmath.

Variable libm : Libm.

(** [pow(2, y)] *)
Definition pow2 (y : binary64.t) : binary64.t :=
  if binary64.is_whole y
  then binary_normalize binary64.prec binary64.emax 1 (binary64.to_int y) false
  else libm_pow2 libm y.

Definition cos (x : binary64.t) : binary64.t :=
  if binary64.is_zero x then binary64.of_Z 1 else libm_cos libm x.

Definition sin (x : binary64.t) : binary64.t :=
  if binary64.is_zero x then x else libm_sin libm x.

End Cmath.

(** Modelled from the spec: [mapProjection.h] is not among the translated
    sources.  [MapProjection::HALF_CIRCUMFERENCE] is half the circumference
    of the earth in meters, the [double] 20037508.342789244. *)
Definition HALF_CIRCUMFERENCE : binary64.t := S754_finite false 5378777689100435 (-28).

(** Modelled from the spec: [view.h] is not among the translated sources;
    the maximal zoom level is 18. *)
Definition s_maxZoom : binary32.t := binary32.of_Z 18.

(** The [double] 0.5. *)
Definition one_half : binary64.t := S754_finite false 4503599627370496 (-53).

Record View : Type := mkView {
  m_visibleTiles : set TileID;
  m_pos_x : binary64.t;
  m_pos_y : binary64.t;
  m_roll : binary32.t;
  m_zoom : binary32.t;
  m_width : binary32.t;
  m_height : binary32.t;
  m_vpWidth : Z;
  m_vpHeight : Z;
  m_aspect : binary32.t;
  m_pixelScale : binary32.t;
  m_pixelsPerTile : binary32.t;
  m_dirty : bool;
  m_changed : bool
}.

Definition setSize (v : View) (_width _height : Z) : View :=
  {| m_visibleTiles := m_visibleTiles v; m_pos_x := m_pos_x v; m_pos_y := m_pos_y v;
     m_roll := m_roll v; m_zoom := m_zoom v; m_width := m_width v;
     m_height := m_height v; m_vpWidth := _width; m_vpHeight := _height;
     m_aspect := binary32.div (binary32.of_Z _width) (binary32.of_Z _height);
     m_pixelScale := m_pixelScale v; m_pixelsPerTile := m_pixelsPerTile v;
     m_dirty := true; m_changed := m_changed v |}.

Definition setPosition (v : View) (_x _y : binary64.t) : View :=
  {| m_visibleTiles := m_visibleTiles v; m_pos_x := _x; m_pos_y := _y;
     m_roll := m_roll v; m_zoom := m_zoom v; m_width := m_width v;
     m_height := m_height v; m_vpWidth := m_vpWidth v; m_vpHeight := m_vpHeight v;
     m_aspect := m_aspect v; m_pixelScale := m_pixelScale v;
     m_pixelsPerTile := m_pixelsPerTile v; m_dirty := true; m_changed := m_changed v |}.

(** Modelled from the spec: glm is not among the translated sources; the
    specification says that the zoom is clamped to its range.  This is
    glm's [clamp(x, lo, hi) = min(max(x, lo), hi)] with comparisons on
    [float]. *)
Definition glm_clamp (x minVal maxVal : binary32.t) : binary32.t :=
  let m := if binary32.ltb x minVal then minVal else x in
  if binary32.ltb maxVal m then maxVal else m.

Definition setZoom (v : View) (_z : binary32.t) : View :=
  {| m_visibleTiles := m_visibleTiles v; m_pos_x := m_pos_x v; m_pos_y := m_pos_y v;
     m_roll := m_roll v; m_zoom := glm_clamp _z (binary32.of_Z 0) s_maxZoom;
     m_width := m_width v; m_height := m_height v; m_vpWidth := m_vpWidth v;
     m_vpHeight := m_vpHeight v; m_aspect := m_aspect v;
     m_pixelScale := m_pixelScale v; m_pixelsPerTile := m_pixelsPerTile v;
     m_dirty := true; m_changed := m_changed v |}.

(** [m_roll = glm::mod(_roll, (float)TWO_PI); m_dirty = true;] *)
Definition setRoll (v : View) (_roll : binary32.t) : View :=
  {| m_visibleTiles := m_visibleTiles v; m_pos_x := m_pos_x v; m_pos_y := m_pos_y v;
     m_roll := binary32.glm_mod _roll binary32.TWO_PI; m_zoom := m_zoom v;
     m_width := m_width v; m_height := m_height v; m_vpWidth := m_vpWidth v;
     m_vpHeight := m_vpHeight v; m_aspect := m_aspect v;
     m_pixelScale := m_pixelScale v; m_pixelsPerTile := m_pixelsPerTile v;
     m_dirty := true; m_changed := m_changed v |}.

(** [setRoll(m_roll + _droll);] *)
Definition roll (v : View) (_droll : binary32.t) : View :=
  setRoll v (binary32.add (m_roll v) _droll).

Section TileWalk.

Variables tileSize invTileSize vpRightEdge vpTopEdge vpBottomEdge : binary32.t.
Variable maxTileIndex : Z.
Variable zoom : binary32.t.

(** The inner loop of [View::updateTiles], with [y] a [float]. *)
Fixpoint inner_loop_fuel (fuel : nat) (tileX : Z) (y : binary32.t) (tileY : Z)
  (tiles : set TileID) : set TileID :=
  match fuel with
  | O => tiles
  | S fuel' =>
      if binary32.ltb y vpTopEdge && (tileY <? maxTileIndex)%Z
      then inner_loop_fuel fuel' tileX (binary32.add y tileSize) (tileY + 1)%Z
             (insert (mkTileID tileX tileY (binary32.to_int zoom)) tiles)
      else tiles
  end.

Definition inner_loop (tileX : Z) (y : binary32.t) (tileY : Z) (tiles : set TileID)
  : set TileID :=
  inner_loop_fuel (Z.to_nat (maxTileIndex - tileY)) tileX y tileY tiles.

(** [tileY = (int) vpBottomEdge * invTileSize;]: the [int] is converted back
    to [float] for the product, and the product to [int]. *)
Definition reset_tileY : Z :=
  binary32.to_int
    (binary32.mul (binary32.of_Z (binary32.to_int vpBottomEdge)) invTileSize).

(** The outer loop, with [x] accumulated in [float]: [x += tileSize]. *)
Fixpoint outer_loop_fuel (fuel : nat) (x : binary32.t) (tileX : Z) (y : binary32.t)
  (tileY : Z) (tiles : set TileID) : set TileID :=
  match fuel with
  | O => tiles
  | S fuel' =>
      if binary32.ltb x vpRightEdge && (tileX <? maxTileIndex)%Z
      then outer_loop_fuel fuel' (binary32.add x tileSize) (tileX + 1)%Z
             (binary32.mul (binary32.of_Z reset_tileY) tileSize) reset_tileY
             (inner_loop tileX y tileY tiles)
      else tiles
  end.

Definition outer_loop (x : binary32.t) (tileX : Z) (y : binary32.t) (tileY : Z)
  (tiles : set TileID) : set TileID :=
  outer_loop_fuel (Z.to_nat (maxTileIndex - tileX)) x tileX y tileY tiles.

End TileWalk.

Section Recompute.

Variable libm : Libm.

(** [View::updateMatrices], the assignments to [m_height] and [m_width]. *)
Definition updateMatrices (v : View) : View :=
  let worldTileSize :=
    binary64.to_binary32
      (binary64.mul (binary64.mul (binary64.of_Z 2) HALF_CIRCUMFERENCE)
         (pow2 libm (binary64.of_binary32 (binary32.opp (m_zoom v))))) in
  let screenTileSize := binary32.mul (m_pixelsPerTile v) (m_pixelScale v) in
  let height :=
    binary32.div (binary32.mul (binary32.of_Z (m_vpHeight v)) worldTileSize)
      screenTileSize in
  let width := binary32.mul height (m_aspect v) in
  {| m_visibleTiles := m_visibleTiles v; m_pos_x := m_pos_x v; m_pos_y := m_pos_y v;
     m_roll := m_roll v; m_zoom := m_zoom v; m_width := width; m_height := height;
     m_vpWidth := m_vpWidth v; m_vpHeight := m_vpHeight v; m_aspect := m_aspect v;
     m_pixelScale := m_pixelScale v; m_pixelsPerTile := m_pixelsPerTile v;
     m_dirty := m_dirty v; m_changed := m_changed v |}.

(** The locals of [View::updateTiles]. *)
Definition tileSize_of (v : View) : binary32.t :=
  binary64.to_binary32
    (binary64.mul (binary64.mul (binary64.of_Z 2) HALF_CIRCUMFERENCE)
       (pow2 libm (binary64.of_Z (- binary32.to_int (m_zoom v))))).

Definition invTileSize_of (v : View) : binary32.t :=
  binary64.to_binary32
    (binary64.div (binary64.of_Z 1) (binary64.of_binary32 (tileSize_of v))).

Definition cos_r_of (v : View) : binary32.t :=
  binary64.to_binary32 (cos libm (binary64.of_binary32 (m_roll v))).

Definition sin_r_of (v : View) : binary32.t :=
  binary64.to_binary32 (sin libm (binary64.of_binary32 (m_roll v))).

Definition width_of (v : View) : binary32.t :=
  binary32.add (binary32.abs (binary32.mul (m_height v) (sin_r_of v)))
    (binary32.abs (binary32.mul (m_width v) (cos_r_of v))).

Definition height_of (v : View) : binary32.t :=
  binary32.add (binary32.abs (binary32.mul (m_width v) (sin_r_of v)))
    (binary32.abs (binary32.mul (m_height v) (cos_r_of v))).

(** [m_pos.x - width * 0.5 + HALF_CIRCUMFERENCE], computed in [double] and
    stored into a [float]. *)
Definition vpLeftEdge_of (v : View) : binary32.t :=
  binary64.to_binary32
    (binary64.add
       (binary64.sub (m_pos_x v)
          (binary64.mul (binary64.of_binary32 (width_of v)) one_half))
       HALF_CIRCUMFERENCE).

Definition vpRightEdge_of (v : View) : binary32.t :=
  binary32.add (vpLeftEdge_of v) (width_of v).

Definition vpBottomEdge_of (v : View) : binary32.t :=
  binary64.to_binary32
    (binary64.add
       (binary64.sub (binary64.opp (m_pos_y v))
          (binary64.mul (binary64.of_binary32 (height_of v)) one_half))
       HALF_CIRCUMFERENCE).

Definition vpTopEdge_of (v : View) : binary32.t :=
  binary32.add (vpBottomEdge_of v) (height_of v).

(** [(int) fmax(0, edge * invTileSize)] *)
Definition start_index (v : View) (edge : binary32.t) : Z :=
  binary64.to_int
    (binary64.fmax (binary64.of_Z 0)
       (binary64.of_binary32 (binary32.mul edge (invTileSize_of v)))).

Definition maxTileIndex_of (v : View) : Z :=
  binary64.to_int (pow2 libm (binary64.of_binary32 (m_zoom v))).

(** [View::updateTiles] *)
Definition updateTiles (v : View) : View :=
  let tileSize := tileSize_of v in
  let invTileSize := invTileSize_of v in
  let vpRightEdge := vpRightEdge_of v in
  let vpBottomEdge := vpBottomEdge_of v in
  let vpTopEdge := vpTopEdge_of v in
  let tileX := start_index v (vpLeftEdge_of v) in
  let tileY := start_index v vpBottomEdge in
  let x := binary32.mul (binary32.of_Z tileX) tileSize in
  let y := binary32.mul (binary32.of_Z tileY) tileSize in
  let maxTileIndex := maxTileIndex_of v in
  {| m_visibleTiles :=
       outer_loop tileSize invTileSize vpRightEdge vpTopEdge vpBottomEdge maxTileIndex
         (m_zoom v) x tileX y tileY [];
     m_pos_x := m_pos_x v; m_pos_y := m_pos_y v;
     m_roll := m_roll v; m_zoom := m_zoom v; m_width := m_width v;
     m_height := m_height v; m_vpWidth := m_vpWidth v; m_vpHeight := m_vpHeight v;
     m_aspect := m_aspect v; m_pixelScale := m_pixelScale v;
     m_pixelsPerTile := m_pixelsPerTile v; m_dirty := m_dirty v;
     m_changed := m_changed v |}.

(** [View::update] *)
Definition update (v : View) : View :=
  if negb (m_dirty v) then
    {| m_visibleTiles := m_visibleTiles v; m_pos_x := m_pos_x v; m_pos_y := m_pos_y v;
       m_roll := m_roll v; m_zoom := m_zoom v; m_width := m_width v;
       m_height := m_height v; m_vpWidth := m_vpWidth v; m_vpHeight := m_vpHeight v;
       m_aspect := m_aspect v; m_pixelScale := m_pixelScale v;
       m_pixelsPerTile := m_pixelsPerTile v; m_dirty := m_dirty v; m_changed := false |}
  else
    let u := updateTiles (updateMatrices v) in
    {| m_visibleTiles := m_visibleTiles u; m_pos_x := m_pos_x u; m_pos_y := m_pos_y u;
       m_roll := m_roll u; m_zoom := m_zoom u; m_width := m_width u;
       m_height := m_height u; m_vpWidth := m_vpWidth u; m_vpHeight := m_vpHeight u;
       m_aspect := m_aspect u; m_pixelScale := m_pixelScale u;
       m_pixelsPerTile := m_pixelsPerTile u; m_dirty := false; m_changed := true |}.

End Recompute.

End machine.

(** ** [Label::updateTransform] *)

Record LabelTransform : Type := mkLabelTransform {
  m_modelPosition : vec2.t;
  m_alpha : R;
  m_rotation : R
}.

Record Label : Type := mkLabel {
  m_transform : LabelTransform;
  m_text : string;
  m_id : Z
}.

(** The arguments of one call [m_buffer->transformID(id, x, y, rotation, alpha)]. *)
Record transformID_call : Type := mk_transformID {
  call_id : Z;
  call_x : R;
  call_y : R;
  call_rotation : R;
  call_alpha : R
}.

(** The label after the call, and the call it makes on its text buffer. *)
Definition updateTransform (l : Label) (_transform : LabelTransform) (_mvp : mat4.t)
  (_screenSize : vec2.t) : Label * transformID_call :=
  let l := mkLabel _transform (m_text l) (m_id l) in
  let halfWidth := vec2.x _screenSize * 0.5 in
  let halfHeight := vec2.y _screenSize * 0.5 in
  let alpha := m_alpha (m_transform l) in
  let screenPosition :=
    vec4.mk (vec2.x (m_modelPosition (m_transform l)))
            (vec2.y (m_modelPosition (m_transform l))) 0 1 in
  let screenPosition := mat4.mul_vec _mvp screenPosition in
  let screenPosition := vec4.div screenPosition (vec4.w screenPosition) in
  let screenPosition_x := (vec4.x screenPosition + 1) * halfWidth in
  let screenPosition_y := (1 - vec4.y screenPosition) * halfHeight in
  let alpha :=
    if Rgtb screenPosition_x (vec2.x _screenSize) || Rltb screenPosition_x 0
    then 0 else alpha in
  let alpha :=
    if Rgtb screenPosition_y (vec2.y _screenSize) || Rltb screenPosition_y 0
    then 0 else alpha in
  (l, mk_transformID (m_id l) screenPosition_x screenPosition_y
        (m_rotation (m_transform l)) alpha).

(** ** Input handling of the desktop front end ([osx/src/main.cpp])

    The callbacks read and write five globals and call the gesture handlers
    of [Tangram].  A callback is a function from the globals before the
    event to the globals after it, together with the gesture calls it makes,
    in order.  What a callback asks of GLFW during the event (the cursor
    position, the time, the state of the mouse button) is an argument. *)

(** The constants of the GLFW header that the callbacks compare with. *)
Record Glfw : Type := mkGlfw {
  GLFW_MOUSE_BUTTON_1 : Z;
  GLFW_PRESS : Z;
  GLFW_MOD_SHIFT : Z
}.

Definition double_tap_time : R := 0.5.

Definition scroll_multiplier : R := 0.05.

(** The globals. *)
Record Input : Type := mkInput {
  was_panning : bool;
  rotating : bool;
  last_mouse_up : R;
  last_x_down : R;
  last_y_down : R
}.

(** The globals as their initialisers leave them. *)
Definition initial_input : Input :=
  {| was_panning := false; rotating := false; last_mouse_up := - double_tap_time;
     last_x_down := 0; last_y_down := 0 |}.

(** A call of one of the gesture handlers of [Tangram]. *)
Inductive gesture : Type :=
| handleTapGesture (x y : R)
| handleDoubleTapGesture (x y : R)
| handlePanGesture (dx dy : R)
| handleRotateGesture (radians : R)
| handlePinchGesture (x y scale : R).

Section InputCallbacks.

Variable glfw : Glfw.

(** [cursor] is what [glfwGetCursorPos] returns and [time] what
    [glfwGetTime] returns during the event. *)
Definition mouse_button_callback (s : Input) (cursor : R * R) (time : R)
  (button action mods : Z) : Input * list gesture :=
  if negb (button =? GLFW_MOUSE_BUTTON_1 glfw)%Z then (s, [])
  else if was_panning s then
    (mkInput false (rotating s) (last_mouse_up s) (last_x_down s) (last_y_down s), [])
  else
    let (x, y) := cursor in
    if (action =? GLFW_PRESS glfw)%Z then
      (mkInput (was_panning s) (rotating s) (last_mouse_up s) x y, [])
    else
      let call :=
        if Rltb (time - last_mouse_up s) double_tap_time
        then handleDoubleTapGesture x y else handleTapGesture x y in
      (mkInput (was_panning s) (rotating s) time (last_x_down s) (last_y_down s), [call]).

(** [button_state] is what [glfwGetMouseButton(window, GLFW_MOUSE_BUTTON_1)]
    returns during the event. *)
Definition cursor_pos_callback (s : Input) (button_state : Z) (x y : R)
  : Input * list gesture :=
  if (button_state =? GLFW_PRESS glfw)%Z then
    (mkInput true (rotating s) (last_mouse_up s) x y,
     if was_panning s then [handlePanGesture (x - last_x_down s) (y - last_y_down s)]
     else [])
  else (s, []).

Definition scroll_callback (s : Input) (cursor : R * R) (scrollx scrolly : R)
  : Input * list gesture :=
  let (x, y) := cursor in
  if rotating s then (s, [handleRotateGesture (scroll_multiplier * scrolly)])
  else (s, [handlePinchGesture x y (1 + scroll_multiplier * scrolly)]).

Definition key_callback (s : Input) (key scancode action mods : Z) : Input :=
  mkInput (was_panning s) (negb (Z.land mods (GLFW_MOD_SHIFT glfw) =? 0)%Z)
          (last_mouse_up s) (last_x_down s) (last_y_down s).

End InputCallbacks.

(** ** A concrete instance

    Modelled from the spec: [view.h], [mapProjection.h] and glm are not among
    the translated sources.  The specification fixes a spherical-mercator
    projection with a half-circumference constant in meters, an upper zoom
    bound, and right-handed matrices for a camera that looks down the
    negative z axis.  The instance below takes the constants of the upstream
    headers and glm's right-handed constructors; it serves to evaluate the
    model on concrete inputs, and no general theorem depends on it. *)

Definition cross (a b : vec3.t) : vec3.t :=
  vec3.mk (vec3.y a * vec3.z b - vec3.z a * vec3.y b)
          (vec3.z a * vec3.x b - vec3.x a * vec3.z b)
          (vec3.x a * vec3.y b - vec3.y a * vec3.x b).

Definition dot (a b : vec3.t) : R :=
  vec3.x a * vec3.x b + vec3.y a * vec3.y b + vec3.z a * vec3.z b.

Definition normalize (a : vec3.t) : vec3.t :=
  let n := sqrt (dot a a) in vec3.mk (vec3.x a / n) (vec3.y a / n) (vec3.z a / n).

Definition glm_lookAt (eye center up : vec3.t) : mat4.t :=
  let f := normalize (vec3.mk (vec3.x center - vec3.x eye) (vec3.y center - vec3.y eye)
                              (vec3.z center - vec3.z eye)) in
  let s := normalize (cross f up) in
  let u := cross s f in
  mat4.mk (vec4.mk (vec3.x s) (vec3.x u) (- vec3.x f) 0)
          (vec4.mk (vec3.y s) (vec3.y u) (- vec3.y f) 0)
          (vec4.mk (vec3.z s) (vec3.z u) (- vec3.z f) 0)
          (vec4.mk (- dot s eye) (- dot u eye) (dot f eye) 1).

Definition glm_perspective (fovy aspect zNear zFar : R) : mat4.t :=
  let tanHalfFovy := tan (fovy / 2) in
  mat4.mk (vec4.mk (1 / (aspect * tanHalfFovy)) 0 0 0)
          (vec4.mk 0 (1 / tanHalfFovy) 0 0)
          (vec4.mk 0 0 (- (zFar + zNear) / (zFar - zNear)) (-1))
          (vec4.mk 0 0 (- (2 * zFar * zNear) / (zFar - zNear)) 0).

(** Half the circumference of the earth, in meters. *)
Definition HC : R := 20037508.342789244.

Definition tangram : Externals :=
  {| HALF_CIRCUMFERENCE := HC;
     s_maxZoom := 18;
     mercator := 0%Z;
     lookAt := glm_lookAt;
     perspective := glm_perspective |}.

(** A [View] object before the body of its constructor runs: the members
    that [view.h] initialises have the values of the upstream header (roll 0,
    initial zoom 16, pixel scale 1, 256 pixels per tile), the others are
    zero. *)
Definition blank_view : View :=
  {| m_projection := None; m_visibleTiles := []; m_pos := dvec3.mk 0 0 0;
     m_view := mat4.identity; m_proj := mat4.identity; m_viewProj := mat4.identity;
     m_roll := 0; m_zoom := 0; m_initZoom := 16; m_width := 0; m_height := 0;
     m_vpWidth := 0; m_vpHeight := 0; m_aspect := 0; m_pixelScale := 1;
     m_pixelsPerTile := 256; m_isZoomIn := false; m_dirty := false;
     m_changed := false |}.

(** The view of [main]: an 800 by 600 window with the mercator projection. *)
Definition main_view : View := fst (View_new tangram blank_view 800 600 (mercator tangram)).

(** ** Vocabulary of the specification *)

(** The state that only [update] derives: the matrices, the world-space
    extents with the camera distance, and the visible tiles. *)
Record Derived : Type := mkDerived {
  d_view : mat4.t;
  d_proj : mat4.t;
  d_viewProj : mat4.t;
  d_width : R;
  d_height : R;
  d_distance : R;
  d_tiles : set TileID
}.

Definition derived (v : View) : Derived :=
  mkDerived (m_view v) (m_proj v) (m_viewProj v) (m_width v) (m_height v)
            (dvec3.z (m_pos v)) (m_visibleTiles v).

(** The camera state and configuration that the mutators set. *)
Record Camera : Type := mkCamera {
  k_projection : option MapProjection;
  k_x : R;
  k_y : R;
  k_roll : R;
  k_zoom : R;
  k_initZoom : R;
  k_vpWidth : Z;
  k_vpHeight : Z;
  k_aspect : R;
  k_pixelScale : R;
  k_pixelsPerTile : R;
  k_isZoomIn : bool
}.

Definition camera (v : View) : Camera :=
  mkCamera (m_projection v) (dvec3.x (m_pos v)) (dvec3.y (m_pos v)) (m_roll v) (m_zoom v)
           (m_initZoom v) (m_vpWidth v) (m_vpHeight v) (m_aspect v) (m_pixelScale v)
           (m_pixelsPerTile v) (m_isZoomIn v).

(** [0 <= x < 2^floor(zoom)], [0 <= y < 2^floor(zoom)], [z = floor(zoom)]. *)
Definition tile_in_bounds (zoom : R) (t : TileID) : Prop :=
  (0 <= tile_x t < 2 ^ Zfloor zoom)%Z /\ (0 <= tile_y t < 2 ^ Zfloor zoom)%Z /\
  tile_z t = Zfloor zoom.

(** What every mutator leaves alone and what it marks: the derived state and
    the "changed" flag are as before, and the view is dirty. *)
Definition deferred (v v' : View) : Prop :=
  derived v' = derived v /\ m_changed v' = m_changed v /\ m_dirty v' = true.

(** The normalised device coordinates of a world anchor: the anchor, at
    height 0 and with homogeneous coordinate 1, transformed by the
    view-projection matrix and divided by its [w] component. *)
Definition ndc (mvp : mat4.t) (p : vec2.t) : vec4.t :=
  let q := mat4.mul_vec mvp (vec4.mk (vec2.x p) (vec2.y p) 0 1) in
  vec4.div q (vec4.w q).

(** The screen position of a world anchor, origin at the top left and y
    pointing down: [screenX = (ndcX + 1) * halfWidth],
    [screenY = (1 - ndcY) * halfHeight]. *)
Definition screen_x (mvp : mat4.t) (p size : vec2.t) : R :=
  (vec4.x (ndc mvp p) + 1) * (vec2.x size / 2).

Definition screen_y (mvp : mat4.t) (p size : vec2.t) : R :=
  (1 - vec4.y (ndc mvp p)) * (vec2.y size / 2).

(** A point of the boundary of the screen rectangle [[0,W] x [0,H]]. *)
Definition on_screen_edge (W H sx sy : R) : Prop :=
  ((sx = 0 \/ sx = W) /\ 0 <= sy <= H) \/ ((sy = 0 \/ sy = H) /\ 0 <= sx <= W).

(** ** The locals of [View::updateTiles], as functions of the view *)

Section TileLocals.

Variable ext : Externals.
Variable v : View.

Definition tileSize_of : R :=
  2 * HALF_CIRCUMFERENCE ext * Rpower 2 (IZR (- to_int (m_zoom v))).

Definition invTileSize_of : R := 1 / tileSize_of.

(** The extents of the bounding box of the rolled viewport rectangle. *)
Definition bound_width : R :=
  Rabs (m_height v * sin (m_roll v)) + Rabs (m_width v * cos (m_roll v)).

Definition bound_height : R :=
  Rabs (m_width v * sin (m_roll v)) + Rabs (m_height v * cos (m_roll v)).

Definition vpLeftEdge_of : R :=
  dvec3.x (m_pos v) - bound_width * 0.5 + HALF_CIRCUMFERENCE ext.

Definition vpRightEdge_of : R := vpLeftEdge_of + bound_width.

Definition vpBottomEdge_of : R :=
  - dvec3.y (m_pos v) - bound_height * 0.5 + HALF_CIRCUMFERENCE ext.

Definition vpTopEdge_of : R := vpBottomEdge_of + bound_height.

(** The column and the row at which the walk starts. *)
Definition start_tileX : Z := to_int (Rmax 0 (vpLeftEdge_of * invTileSize_of)).

Definition start_tileY : Z := to_int (Rmax 0 (vpBottomEdge_of * invTileSize_of)).

(** The row to which the walk resets [tileY] after each column. *)
Definition reset_row : Z := reset_tileY invTileSize_of vpBottomEdge_of.

Definition maxTileIndex_of : Z := to_int (Rpower 2 (m_zoom v)).

(** The row at which the walk starts column [c]. *)
Definition column_start (c : Z) : Z :=
  if (c =? start_tileX)%Z then start_tileY else reset_row.

End TileLocals.


(** ** Sample views *)

(** The main view zoomed to level 2 and moved north, so that the bottom edge
    of its viewport lies below the map. *)
Definition north_view : View := setPosition (setZoom tangram main_view 2) 0 20000000.

(** [north_view] after [updateMatrices]. *)
Definition north_matrices : View := updateMatrices tangram north_view.

(** The size of a tile at zoom level 2, in meters. *)
Definition T2 : R := 10018754.171394622.

(** Column [c] of [tiles] begins at row [r]: the tile [(c, r)] is there, and
    no tile of column [c] lies in a lower row. *)
Definition column_begins_at (tiles : set TileID) (c r : Z) : Prop :=
  (exists z, In (mkTileID c r z) tiles) /\
  (forall t, In t tiles -> tile_x t = c -> (r <= tile_y t)%Z).



(** The view of [main] in machine arithmetic: 800 by 600 pixels, zoom 16, at
    the origin, with the initial values of [view.h] (roll 0, pixel scale 1,
    256 pixels per tile). *)
Definition machine_blank_view : machine.View :=
  {| machine.m_visibleTiles := []; machine.m_pos_x := binary64.of_Z 0;
     machine.m_pos_y := binary64.of_Z 0; machine.m_roll := binary32.of_Z 0;
     machine.m_zoom := binary32.of_Z 0; machine.m_width := binary32.of_Z 0;
     machine.m_height := binary32.of_Z 0; machine.m_vpWidth := 0;
     machine.m_vpHeight := 0; machine.m_aspect := binary32.of_Z 0;
     machine.m_pixelScale := binary32.of_Z 1;
     machine.m_pixelsPerTile := binary32.of_Z 256;
     machine.m_dirty := false; machine.m_changed := false |}.

Definition machine_main_view : machine.View :=
  machine.setPosition
    (machine.setZoom (machine.setSize machine_blank_view 800 600) (binary32.of_Z 16))
    (binary64.of_Z 0) (binary64.of_Z 0).

(** The main view moved 953 m west and 129 m south of the origin. *)
Definition west_view : machine.View :=
  machine.setPosition machine_main_view (binary64.of_Z (-953)) (binary64.of_Z (-129)).

(** A view at zoom 18, 1157 m west and 2010 m south of the origin. *)
Definition close_view : machine.View :=
  machine.setPosition (machine.setZoom machine_main_view (binary32.of_Z 18))
    (binary64.of_Z (-1157)) (binary64.of_Z (-2010)).

(** The left edge of column [c] as the walk computes it for its first
    column: [c * tileSize]. *)
Definition column_edge (libm : machine.Libm) (v : machine.View) (c : Z) : binary32.t :=
  binary32.mul (binary32.of_Z c) (machine.tileSize_of libm v).

(** The position [x] of the walk after [n] columns: [tileX * tileSize] for
    the start column, then [x += tileSize] for each column. *)
Definition walk_position (libm : machine.Libm) (v : machine.View) (n : nat) : binary32.t :=
  Nat.iter n (fun x => binary32.add x (machine.tileSize_of libm v))
    (column_edge libm v (machine.start_index libm v (machine.vpLeftEdge_of libm v))).

(** The [float] -1e-8f: a roll of a hundred-millionth of a radian, backwards. *)
Definition minus_1e_8 : binary32.t :=
  binary32.div (binary32.of_Z (-1)) (binary32.of_Z 100000000).

(** The [float] 1e30f. *)
Definition plus_1e30 : binary32.t := binary32.of_Z (10 ^ 30).

(** The main view at the zoom level 1.6. *)
Definition fractional_view : View := setZoom tangram main_view 1.6.

(** [fractional_view] after [updateMatrices]. *)
Definition fractional_matrices : View := updateMatrices tangram fractional_view.



(** A label anchored at the world point [(x, y)], with alpha 1. *)
Definition label_at (x y : R) : LabelTransform := mkLabelTransform (vec2.mk x y) 1 0.

Definition sample_label : Label := mkLabel (label_at 0 0) "label" 0.

(** ** Sequences of input events *)

(** An event as GLFW delivers it, with what the callback reads from GLFW
    while it handles the event. *)
Inductive event : Type :=
| MouseButton (cursor : R * R) (time : R) (button action mods : Z)
| CursorPos (button_state : Z) (x y : R)
| Scroll (cursor : R * R) (scrollx scrolly : R)
| Key (key scancode action mods : Z).

(** The callback that GLFW calls for an event. *)
Definition dispatch (glfw : Glfw) (s : Input) (e : event) : Input * list gesture :=
  match e with
  | MouseButton cursor time button action mods =>
      mouse_button_callback glfw s cursor time button action mods
  | CursorPos button_state x y => cursor_pos_callback glfw s button_state x y
  | Scroll cursor scrollx scrolly => scroll_callback s cursor scrollx scrolly
  | Key key scancode action mods => (key_callback glfw s key scancode action mods, [])
  end.

(** The globals after a sequence of events and the gesture calls made. *)
Fixpoint run (glfw : Glfw) (s : Input) (es : list event) : Input * list gesture :=
  match es with
  | [] => (s, [])
  | e :: es' =>
      let (s1, g1) := dispatch glfw s e in
      let (s2, g2) := run glfw s1 es' in
      (s2, (g1 ++ g2)%list)
  end.

(** The cursor moving through [path] while button 1 is held. *)
Definition drag_events (glfw : Glfw) (path : list (R * R)) : list event :=
  map (fun p => CursorPos (GLFW_PRESS glfw) (fst p) (snd p)) path.

(** Button 1 going down and up. *)
Definition press (glfw : Glfw) (cursor : R * R) (time : R) : event :=
  MouseButton cursor time (GLFW_MOUSE_BUTTON_1 glfw) (GLFW_PRESS glfw) 0.

(** [action] is any value other than [GLFW_PRESS]. *)
Definition release (glfw : Glfw) (cursor : R * R) (time : R) (action : Z) : event :=
  MouseButton cursor time (GLFW_MOUSE_BUTTON_1 glfw) action 0.

(** The sum of the displacements of the pan calls among [gs]. *)
Fixpoint pan_sum (gs : list gesture) : R * R :=
  match gs with
  | [] => (0, 0)
  | handlePanGesture dx dy :: gs' => (dx + fst (pan_sum gs'), dy + snd (pan_sum gs'))
  | _ :: gs' => pan_sum gs'
  end.

Definition is_pan (g : gesture) : bool :=
  match g with handlePanGesture _ _ => true | _ => false end.

(** ** The tile grid *)



(** The point from which a drag that starts in state [s] measures its first
    displacement. *)
Definition drag_origin (s : Input) (path : list (R * R)) : R * R :=
  if was_panning s then (last_x_down s, last_y_down s) else hd (0, 0) path.

(** An event that is none of the callbacks' business: a button other than
    button 1, or a cursor movement while button 1 is not held. *)
Definition foreign (glfw : Glfw) (e : event) : Prop :=
  match e with
  | MouseButton _ _ button _ _ => button <> GLFW_MOUSE_BUTTON_1 glfw
  | CursorPos button_state _ _ => button_state <> GLFW_PRESS glfw
  | _ => False
  end.

(** Modelled from the spec: the GLFW header is not among the translated
    sources.  The instance takes the values of the GLFW 3 header (button 1
    is 0, [GLFW_PRESS] is 1, the shift bit is 1); it serves to evaluate the
    callbacks on concrete events, and no general theorem depends on it. *)
Definition glfw3 : Glfw :=
  {| GLFW_MOUSE_BUTTON_1 := 0; GLFW_PRESS := 1; GLFW_MOD_SHIFT := 1 |}.


(** * Properties *)

(** ** Comparisons and casts *)

Lemma Rltb_true (x y : R) : Rltb x y = true <-> x < y.
Proof.
  unfold Rltb; destruct (Rlt_dec x y); split; intros; try assumption;
    try reflexivity; try discriminate; contradiction.
Qed.

Lemma Rltb_false (x y : R) : Rltb x y = false <-> y <= x.
Proof.
  unfold Rltb; destruct (Rlt_dec x y); split; intros; try reflexivity;
    try discriminate; lra.
Qed.

Lemma Rltb_lt (x y : R) : x < y -> Rltb x y = true.
Proof. apply Rltb_true. Qed.

Lemma Rltb_ge (x y : R) : y <= x -> Rltb x y = false.
Proof. apply Rltb_false. Qed.

Lemma to_int_nonneg (x : R) : 0 <= x -> to_int x = Zfloor x.
Proof. intros H; unfold to_int; destruct (Rle_dec 0 x); [reflexivity | contradiction]. Qed.

Lemma to_int_neg (x : R) : x < 0 -> to_int x = Zceil x.
Proof. intros H; unfold to_int; destruct (Rle_dec 0 x); [lra | reflexivity]. Qed.

Lemma to_int_IZR (n : Z) : to_int (IZR n) = n.
Proof.
  unfold to_int; destruct (Rle_dec 0 (IZR n)).
  - apply ZfloorZ.
  - unfold Zceil. rewrite <- opp_IZR, ZfloorZ. lia.
Qed.

(** Truncation toward zero is monotone. *)
Lemma to_int_le (x y : R) : x <= y -> (to_int x <= to_int y)%Z.
Proof.
  intros H; unfold to_int.
  destruct (Rle_dec 0 x), (Rle_dec 0 y); try lra.
  - now apply Zfloor_le.
  - apply Z.le_trans with 0%Z.
    + apply le_IZR. pose proof (Zceil_bound x) as B.
      destruct (Z_le_gt_dec (Zceil x) 0) as [L | G]; [now apply IZR_le |].
      assert (1 <= IZR (Zceil x)) by (apply IZR_le; lia). lra.
    + apply Zfloor_lub; simpl; lra.
  - now apply Zceil_le.
Qed.


Lemma to_int_nonpos_le (x : R) : x <= 0 -> (to_int x <= 0)%Z.
Proof.
  intros H. rewrite <- (to_int_IZR 0). apply to_int_le. exact H.
Qed.

(** ** The dirty flag: [update] *)

Section UpdateProperties.

Variable ext : Externals.

Lemma update_clean (v : View) :
  m_dirty v = false -> update ext v = set_m_changed false v.
Proof. intros H; unfold update; rewrite H; reflexivity. Qed.

Lemma update_dirty (v : View) :
  m_dirty v = true ->
  update ext v =
  set_m_changed true (set_m_dirty false (updateTiles ext (updateMatrices ext v))).
Proof. intros H; unfold update; rewrite H; reflexivity. Qed.

Lemma update_clears_dirty (v : View) : m_dirty (update ext v) = false.
Proof.
  unfold update; destruct (m_dirty v) eqn:D; simpl; [reflexivity | exact D].
Qed.

Lemma update_zoom (v : View) : m_zoom (update ext v) = m_zoom v.
Proof. unfold update; destruct (m_dirty v); reflexivity. Qed.

(** C3.  On a dirty view the first [update] recomputes the matrices and then
    the tiles, clears the dirty flag and reports a change; a second [update]
    with no mutation in between recomputes nothing: it leaves the matrices,
    the extents, the tiles, the camera and the dirty flag as they are and
    reports no change. *)
Theorem update_twice_recomputes_once (v : View) :
  m_dirty v = true ->
  let v1 := update ext v in
  let v2 := update ext v1 in
  v1 = set_m_changed true (set_m_dirty false (updateTiles ext (updateMatrices ext v))) /\
  m_dirty v1 = false /\ m_changed v1 = true /\
  v2 = set_m_changed false v1 /\
  derived v2 = derived v1 /\ camera v2 = camera v1 /\
  m_dirty v2 = m_dirty v1 /\ m_changed v2 = false.
Proof.
  intros D v1 v2.
  assert (E1 : v1 = set_m_changed true
                      (set_m_dirty false (updateTiles ext (updateMatrices ext v))))
    by (apply update_dirty; exact D).
  assert (E2 : v2 = set_m_changed false v1)
    by (apply update_clean, update_clears_dirty).
  repeat split; try assumption.
  - apply update_clears_dirty.
  - rewrite E1; reflexivity.
  - rewrite E2; reflexivity.
  - rewrite E2; reflexivity.
  - rewrite E2; reflexivity.
  - rewrite E2; reflexivity.
Qed.

End UpdateProperties.

Lemma update_twice_recomputes_once_witness :
  m_dirty main_view = true /\
  update tangram (update tangram main_view) =
  set_m_changed false (update tangram main_view).
Proof.
  split; [reflexivity |].
  apply (update_twice_recomputes_once tangram main_view). reflexivity.
Defined.

(** ** The mutators *)

Section MutatorProperties.

Variable ext : Externals.

(** C7.  No mutator touches the matrices, the world-space extents, the
    camera distance or the visible tiles; each one sets its own camera field
    (with the aspect ratio for [setSize] and the zoom-direction hint for
    [zoom]), leaves every other camera field as it was, and marks the view
    dirty. *)
Theorem mutators_defer_recompute (v : View) :
  let c := camera v in
  (forall p,
     deferred v (fst (setMapProjection ext v p)) /\
     camera (fst (setMapProjection ext v p)) =
     mkCamera (Some MercatorProjection) (k_x c) (k_y c) (k_roll c) (k_zoom c)
       (k_initZoom c) (k_vpWidth c) (k_vpHeight c) (k_aspect c) (k_pixelScale c)
       (k_pixelsPerTile c) (k_isZoomIn c)) /\
  (forall s,
     deferred v (setPixelScale v s) /\
     camera (setPixelScale v s) =
     mkCamera (k_projection c) (k_x c) (k_y c) (k_roll c) (k_zoom c)
       (k_initZoom c) (k_vpWidth c) (k_vpHeight c) (k_aspect c) s
       (k_pixelsPerTile c) (k_isZoomIn c)) /\
  (forall w h,
     deferred v (setSize v w h) /\
     camera (setSize v w h) =
     mkCamera (k_projection c) (k_x c) (k_y c) (k_roll c) (k_zoom c)
       (k_initZoom c) w h (IZR w / IZR h) (k_pixelScale c)
       (k_pixelsPerTile c) (k_isZoomIn c)) /\
  (forall x y,
     deferred v (setPosition v x y) /\
     camera (setPosition v x y) =
     mkCamera (k_projection c) x y (k_roll c) (k_zoom c)
       (k_initZoom c) (k_vpWidth c) (k_vpHeight c) (k_aspect c) (k_pixelScale c)
       (k_pixelsPerTile c) (k_isZoomIn c)) /\
  (forall z,
     deferred v (setZoom ext v z) /\
     camera (setZoom ext v z) =
     mkCamera (k_projection c) (k_x c) (k_y c) (k_roll c) (glm_clamp z 0 (s_maxZoom ext))
       (k_initZoom c) (k_vpWidth c) (k_vpHeight c) (k_aspect c) (k_pixelScale c)
       (k_pixelsPerTile c) (k_isZoomIn c)) /\
  (forall r,
     deferred v (setRoll v r) /\
     camera (setRoll v r) =
     mkCamera (k_projection c) (k_x c) (k_y c) (glm_mod r TWO_PI) (k_zoom c)
       (k_initZoom c) (k_vpWidth c) (k_vpHeight c) (k_aspect c) (k_pixelScale c)
       (k_pixelsPerTile c) (k_isZoomIn c)) /\
  (forall dx dy,
     deferred v (translate v dx dy) /\
     camera (translate v dx dy) =
     mkCamera (k_projection c) (k_x c + dx) (k_y c + dy) (k_roll c) (k_zoom c)
       (k_initZoom c) (k_vpWidth c) (k_vpHeight c) (k_aspect c) (k_pixelScale c)
       (k_pixelsPerTile c) (k_isZoomIn c)) /\
  (forall dz,
     deferred v (zoom ext v dz) /\
     camera (zoom ext v dz) =
     mkCamera (k_projection c) (k_x c) (k_y c) (k_roll c)
       (glm_clamp (k_zoom c + dz) 0 (s_maxZoom ext))
       (k_initZoom c) (k_vpWidth c) (k_vpHeight c) (k_aspect c) (k_pixelScale c)
       (k_pixelsPerTile c) (Rgtb dz 0)) /\
  (forall dr,
     deferred v (roll v dr) /\
     camera (roll v dr) =
     mkCamera (k_projection c) (k_x c) (k_y c) (glm_mod (k_roll c + dr) TWO_PI) (k_zoom c)
       (k_initZoom c) (k_vpWidth c) (k_vpHeight c) (k_aspect c) (k_pixelScale c)
       (k_pixelsPerTile c) (k_isZoomIn c)).
Proof.
  intros c; unfold deferred.
  repeat (match goal with |- _ /\ _ => split | |- forall _, _ => intro end);
    try reflexivity;
    try (unfold setMapProjection; destruct (_ =? _)%Z; reflexivity);
    unfold zoom; destruct (Rgtb _ 0); reflexivity.
Qed.

(** C10.  [zoom] records a zoom-in exactly when the delta is strictly
    positive; a zero delta records a zoom-out. *)
Theorem zoom_direction_hint (v : View) (dz : R) :
  (m_isZoomIn (zoom ext v dz) = true <-> dz > 0) /\
  (m_isZoomIn (zoom ext v dz) = false <-> dz <= 0) /\
  m_isZoomIn (zoom ext v 0) = false.
Proof.
  assert (E : forall d, m_isZoomIn (zoom ext v d) = Rltb 0 d).
  { intros d. unfold zoom, Rgtb. destruct (Rltb 0 d); reflexivity. }
  rewrite !E. split; [| split].
  - rewrite Rltb_true. unfold Rgt. tauto.
  - apply Rltb_false.
  - apply Rltb_false. lra.
Qed.

(** C8.  Whatever the selector, [setMapProjection] and the constructor
    return a view with the mercator projection installed and the dirty flag
    set; the diagnostic is logged exactly when the selector is not the
    mercator variant. *)
Theorem setMapProjection_falls_back (v : View) (p : ProjectionType) (w h : Z) :
  m_projection (fst (setMapProjection ext v p)) = Some MercatorProjection /\
  m_dirty (fst (setMapProjection ext v p)) = true /\
  (p <> mercator ext -> snd (setMapProjection ext v p) = [invalid_projection_msg]) /\
  (p = mercator ext -> snd (setMapProjection ext v p) = []) /\
  m_projection (fst (View_new ext v w h p)) = Some MercatorProjection /\
  m_dirty (fst (View_new ext v w h p)) = true /\
  (p <> mercator ext -> snd (View_new ext v w h p) = [invalid_projection_msg]).
Proof.
  unfold View_new, setMapProjection.
  destruct (Z.eqb_spec p (mercator ext)) as [E | N]; simpl;
    repeat split; intros; try reflexivity; try contradiction; try discriminate.
Qed.

End MutatorProperties.

Lemma setMapProjection_falls_back_witness :
  7%Z <> mercator tangram /\
  m_projection (fst (View_new tangram blank_view 800 600 7%Z)) = Some MercatorProjection /\
  snd (View_new tangram blank_view 800 600 7%Z) = [invalid_projection_msg].
Proof.
  split; [discriminate |].
  pose proof (setMapProjection_falls_back tangram blank_view 7%Z 800 600) as H.
  split; [apply H | apply H; discriminate].
Defined.

(** ** Matrix derivation *)

Section MatrixProperties.

Variable ext : Externals.

(** C5.  [updateMatrices] sets the world height to
    [screenHeightPx * tileSize / (pixelsPerTile * pixelDensity)] with
    [tileSize = 2 * halfCircumference * 2^(-zoom)], the world width to the
    height times the aspect ratio, the field of view to [π/2], divided by the
    aspect ratio exactly when the width exceeds the height, the camera
    distance to [worldHeight / 2 / tan(fovy / 2)], and passes the near plane
    [z / 50] and the far plane [z + 1] to the perspective projection. *)
Theorem updateMatrices_derivation (v : View) :
  let tileSize := 2 * HALF_CIRCUMFERENCE ext * Rpower 2 (- m_zoom v) in
  let v' := updateMatrices ext v in
  let worldHeight := m_height v' in
  let worldWidth := m_width v' in
  let z := dvec3.z (m_pos v') in
  worldHeight = IZR (m_vpHeight v) * tileSize / (m_pixelsPerTile v * m_pixelScale v) /\
  worldWidth = worldHeight * m_aspect v /\
  exists fovy : R,
    (worldWidth > worldHeight -> fovy = PI / 2 / m_aspect v) /\
    (~ worldWidth > worldHeight -> fovy = PI / 2) /\
    z = worldHeight / 2 / tan (fovy / 2) /\
    m_proj v' = perspective ext fovy (m_aspect v) (z / 50) (z + 1) /\
    m_view v' =
      lookAt ext (vec3.mk 0 0 0) (vec3.mk 0 0 (-1))
        (vec3.mk (cos (m_roll v + PI / 2)) (sin (m_roll v + PI / 2)) 0) /\
    m_viewProj v' = mat4.mul (m_proj v') (m_view v').
Proof.
  intros tileSize v' worldHeight worldWidth z.
  split; [reflexivity |]. split; [reflexivity |].
  exists (if Rgtb worldWidth worldHeight then PI * 0.5 / m_aspect v else PI * 0.5).
  repeat split.
  - intros G. unfold Rgtb. rewrite Rltb_lt by exact G.
    replace (PI * 0.5) with (PI / 2) by lra. reflexivity.
  - intros G. unfold Rgtb. rewrite Rltb_ge by lra. lra.
  - unfold z, v', updateMatrices; simpl.
    fold tileSize.
    set (h := IZR (m_vpHeight v) * tileSize / (m_pixelsPerTile v * m_pixelScale v)).
    set (f := if Rgtb (h * m_aspect v) h then PI * 0.5 / m_aspect v else PI * 0.5).
    replace (f * 0.5) with (f / 2) by lra.
    replace (h * 0.5) with (h / 2) by lra. reflexivity.
Qed.

End MatrixProperties.

(** ** Zoom and roll *)


Lemma glm_clamp_id (x lo hi : R) : lo <= x <= hi -> glm_clamp x lo hi = x.
Proof.
  intros H; unfold glm_clamp, Rmin, Rmax.
  destruct (Rle_dec x lo); destruct (Rle_dec _ hi); lra.
Qed.

Section ZoomProperties.

Variable ext : Externals.
Hypothesis maxZoom_nonneg : 0 <= s_maxZoom ext.


End ZoomProperties.


(** ** The roll in single precision *)

(** 2π lies between 13176794.5 * 2^-21 and 13176795 * 2^-21. *)
Lemma two_PI_bounds : 13176794.5 / 2097152 < 2 * PI < 13176795 / 2097152.
Proof.
  pose proof (PI_2_3_7_ineq 4) as [L U].
  unfold sum_f_R0, tg_alt, PI_2_3_7_tg, Ratan_seq in L, U.
  simpl in L, U.
  split; lra.
Qed.

Lemma TWO_PI_value : binary32.to_R binary32.TWO_PI = 13176795 / 2097152.
Proof. unfold binary32.to_R, binary32.TWO_PI. simpl. reflexivity. Qed.

(** [(float)TWO_PI] is the [float] nearest to 2π: it is off by less than
    half a unit of its last place, 2^-22, and it lies above 2π. *)
Lemma TWO_PI_nearest :
  Rabs (binary32.to_R binary32.TWO_PI - 2 * PI) < / 2 ^ 22 /\
  2 * PI < binary32.to_R binary32.TWO_PI.
Proof.
  pose proof two_PI_bounds as [L U]. rewrite TWO_PI_value.
  split; [apply Rabs_def1; simpl; lra | exact U].
Qed.

(** Two values that the wrap handles as meant: [setRoll(7.0f)] stores
    12026152 * 2^-24 = 0.7168145, which is 7 less one turn, and
    [setRoll(1.0f)] stores 1. *)
Lemma setRoll_wraps_seven (v : machine.View) :
  machine.m_roll (machine.setRoll v (binary32.of_Z 7)) = S754_finite false 12026152 (-24) /\
  machine.m_roll (machine.setRoll v (binary32.of_Z 1)) = binary32.of_Z 1 /\
  binary32.ltb (machine.m_roll (machine.setRoll v (binary32.of_Z 7))) binary32.TWO_PI = true.
Proof. repeat split; vm_compute; reflexivity. Qed.

(** [floorf] at a few values. *)
Lemma floor_values :
  binary32.floor (binary32.div (binary32.of_Z 7) (binary32.of_Z 2)) = binary32.of_Z 3 /\
  binary32.floor (binary32.div (binary32.of_Z (-7)) (binary32.of_Z 2)) = binary32.of_Z (-4) /\
  binary32.floor (binary32.of_Z (-4)) = binary32.of_Z (-4) /\
  binary32.floor minus_1e_8 = binary32.of_Z (-1) /\
  binary32.floor plus_1e30 = plus_1e30.
Proof. repeat split; vm_compute; reflexivity. Qed.

(** C6.  The roll half of the invariant is missed in single precision.
    [setRoll(-1e-8f)], and [roll(-1e-8f)] on a view whose roll is 0, store
    [(float)TWO_PI]: the quotient floors to -1 and the sum
    [-1e-8f + (float)TWO_PI] rounds to [(float)TWO_PI], which is not below
    [(float)TWO_PI] and lies above 2π.  [setRoll(1e30f)] stores 2^76: the
    product [(float)TWO_PI * floor(1e30f / (float)TWO_PI)] rounds to the
    [float] next to 1e30f. *)
Theorem setRoll_leaves_the_first_turn (v : machine.View) :
  machine.m_roll (machine.setRoll v minus_1e_8) = binary32.TWO_PI /\
  machine.m_roll (machine.roll machine_main_view minus_1e_8) = binary32.TWO_PI /\
  binary32.ltb (machine.m_roll (machine.setRoll v minus_1e_8)) binary32.TWO_PI = false /\
  2 * PI < binary32.to_R (machine.m_roll (machine.setRoll v minus_1e_8)) /\
  machine.m_roll (machine.setRoll v plus_1e30) = S754_finite false 8388608 53 /\
  binary32.ltb binary32.TWO_PI (machine.m_roll (machine.setRoll v plus_1e30)) = true /\
  2 * PI < binary32.to_R (machine.m_roll (machine.setRoll v plus_1e30)).
Proof.
  assert (A : machine.m_roll (machine.setRoll v minus_1e_8) = binary32.TWO_PI)
    by (vm_compute; reflexivity).
  assert (B : machine.m_roll (machine.setRoll v plus_1e30) = S754_finite false 8388608 53)
    by (vm_compute; reflexivity).
  split; [exact A |]. split; [vm_compute; reflexivity |].
  split; [rewrite A; vm_compute; reflexivity |].
  split; [rewrite A; apply TWO_PI_nearest |].
  split; [exact B |]. rewrite B.
  split; [vm_compute; reflexivity |].
  unfold binary32.to_R.
  replace (8388608 * 2 ^ 53)%Z with 75557863725914323419136%Z by (vm_compute; reflexivity).
  simpl. pose proof PI_4. lra.
Qed.

(** ** Labels *)

(** C9.  [updateTransform] hands the text buffer the screen position of the
    anchor; the alpha it hands over is 0 when that position lies outside
    [[0,width] x [0,height]] and the alpha of the transform when it lies
    inside or exactly on an edge of the screen. *)
Theorem label_culling_boundary_inclusive
  (l : Label) (t : LabelTransform) (mvp : mat4.t) (size : vec2.t) :
  let call := snd (updateTransform l t mvp size) in
  let W := vec2.x size in
  let H := vec2.y size in
  let sx := screen_x mvp (m_modelPosition t) size in
  let sy := screen_y mvp (m_modelPosition t) size in
  call_x call = sx /\ call_y call = sy /\
  (sx < 0 \/ sx > W \/ sy < 0 \/ sy > H -> call_alpha call = 0) /\
  (0 <= sx <= W /\ 0 <= sy <= H -> call_alpha call = m_alpha t) /\
  (on_screen_edge W H sx sy -> 0 <= W -> 0 <= H -> call_alpha call = m_alpha t).
Proof.
  intros call W H sx sy.
  assert (Ex : call_x call = sx).
  { unfold call, sx, screen_x, ndc, updateTransform; simpl.
    unfold Rdiv; ring_simplify; lra. }
  assert (Ey : call_y call = sy).
  { unfold call, sy, screen_y, ndc, updateTransform; simpl.
    unfold Rdiv; ring_simplify; lra. }
  assert (Ea : call_alpha call =
               if Rgtb (call_y call) H || Rltb (call_y call) 0 then 0
               else if Rgtb (call_x call) W || Rltb (call_x call) 0 then 0
                    else m_alpha t) by reflexivity.
  rewrite Ex, Ey in Ea.
  assert (In : 0 <= sx <= W /\ 0 <= sy <= H -> call_alpha call = m_alpha t).
  { intros [[X0 X1] [Y0 Y1]]. rewrite Ea. unfold Rgtb.
    rewrite (Rltb_ge W sx X1), (Rltb_ge sx 0 X0), (Rltb_ge H sy Y1), (Rltb_ge sy 0 Y0).
    reflexivity. }
  split; [exact Ex |]. split; [exact Ey |]. split; [| split; [exact In |]].
  - intros O. rewrite Ea. unfold Rgtb.
    destruct (Rltb H sy) eqn:A; [reflexivity |].
    destruct (Rltb sy 0) eqn:B; [reflexivity |].
    destruct (Rltb W sx) eqn:C; [reflexivity |].
    destruct (Rltb sx 0) eqn:D; [reflexivity |].
    apply Rltb_false in A, B, C, D. lra.
  - intros E HW HH. apply In. unfold on_screen_edge in E. lra.
Qed.

Lemma label_culling_boundary_inclusive_witness :
  on_screen_edge 800 600
    (screen_x mat4.identity (vec2.mk (-1) 1) (vec2.mk 800 600))
    (screen_y mat4.identity (vec2.mk (-1) 1) (vec2.mk 800 600)) /\
  call_alpha (snd (updateTransform sample_label (label_at (-1) 1) mat4.identity
                     (vec2.mk 800 600))) = 1 /\
  screen_x mat4.identity (vec2.mk 2 0) (vec2.mk 800 600) > 800 /\
  call_alpha (snd (updateTransform sample_label (label_at 2 0) mat4.identity
                     (vec2.mk 800 600))) = 0.
Proof.
  assert (X : screen_x mat4.identity (vec2.mk (-1) 1) (vec2.mk 800 600) = 0)
    by (unfold screen_x, ndc; simpl; lra).
  assert (Y : screen_y mat4.identity (vec2.mk (-1) 1) (vec2.mk 800 600) = 0)
    by (unfold screen_y, ndc; simpl; lra).
  assert (O : screen_x mat4.identity (vec2.mk 2 0) (vec2.mk 800 600) > 800)
    by (unfold screen_x, ndc; simpl; lra).
  assert (E : on_screen_edge 800 600
                (screen_x mat4.identity (vec2.mk (-1) 1) (vec2.mk 800 600))
                (screen_y mat4.identity (vec2.mk (-1) 1) (vec2.mk 800 600)))
    by (rewrite X, Y; left; split; [left; reflexivity | lra]).
  split; [exact E |]. split; [| split; [exact O |]].
  - apply (label_culling_boundary_inclusive sample_label (label_at (-1) 1) mat4.identity
             (vec2.mk 800 600)); [exact E | simpl; lra | simpl; lra].
  - apply (label_culling_boundary_inclusive sample_label (label_at 2 0) mat4.identity
             (vec2.mk 800 600)). right; left. exact O.
Defined.

(** ** The tile walk *)

Lemma In_insert (t u : TileID) (s : set TileID) :
  In t (insert u s) <-> t = u \/ In t s.
Proof.
  unfold insert; split.
  - apply set_add_elim.
  - apply set_add_intro.
Qed.

Lemma TileID_eq (t : TileID) (a b c : Z) :
  t = mkTileID a b c <-> tile_x t = a /\ tile_y t = b /\ tile_z t = c.
Proof.
  destruct t as [p q r]; simpl; split.
  - intros E; inversion E; auto.
  - intros [-> [-> ->]]; reflexivity.
Qed.

Section TileWalkProperties.

Variables (tileSize invTileSize vpRightEdge vpTopEdge vpBottomEdge : R).
Variables (maxTileIndex : Z) (zoom : R).

Local Abbreviation inner_fuel := (inner_loop_fuel tileSize vpTopEdge maxTileIndex zoom).
Local Abbreviation inner := (inner_loop tileSize vpTopEdge maxTileIndex zoom).
Local Abbreviation outer_fuel :=
  (outer_loop_fuel tileSize invTileSize vpRightEdge vpTopEdge vpBottomEdge
     maxTileIndex zoom).
Local Abbreviation outer :=
  (outer_loop tileSize invTileSize vpRightEdge vpTopEdge vpBottomEdge maxTileIndex zoom).
Local Abbreviation reset := (reset_tileY invTileSize vpBottomEdge).

(** *** The fuel is enough: the functions satisfy the equations of the loops *)

Lemma inner_loop_fuel_enough (fuel : nat) :
  forall tileX y tileY tiles,
    (Z.to_nat (maxTileIndex - tileY) <= fuel)%nat ->
    inner_fuel fuel tileX y tileY tiles = inner tileX y tileY tiles.
Proof.
  unfold inner_loop.
  induction fuel as [| fuel IH]; intros tileX y tileY tiles Hf.
  - replace (Z.to_nat (maxTileIndex - tileY)) with O by lia. reflexivity.
  - destruct (Z.ltb_spec tileY maxTileIndex) as [L | G].
    + replace (Z.to_nat (maxTileIndex - tileY))
        with (S (Z.to_nat (maxTileIndex - (tileY + 1)))) by lia.
      simpl. destruct (Rltb y vpTopEdge && (tileY <? maxTileIndex)%Z); [| reflexivity].
      apply IH. lia.
    + replace (Z.to_nat (maxTileIndex - tileY)) with O by lia.
      simpl. replace (tileY <? maxTileIndex)%Z with false
        by (symmetry; apply Z.ltb_ge; lia).
      rewrite andb_false_r. reflexivity.
Qed.

(** The equation of the inner [while]. *)
Lemma inner_loop_eq (tileX : Z) (y : R) (tileY : Z) (tiles : set TileID) :
  inner tileX y tileY tiles =
  if Rltb y vpTopEdge && (tileY <? maxTileIndex)%Z
  then inner tileX (y + tileSize) (tileY + 1)%Z
         (insert (mkTileID tileX tileY (to_int zoom)) tiles)
  else tiles.
Proof.
  rewrite <- (inner_loop_fuel_enough (S (Z.to_nat (maxTileIndex - tileY)))) by lia.
  simpl. destruct (Rltb y vpTopEdge && (tileY <? maxTileIndex)%Z); [| reflexivity].
  apply inner_loop_fuel_enough. lia.
Qed.

Lemma outer_loop_fuel_enough (fuel : nat) :
  forall x tileX y tileY tiles,
    (Z.to_nat (maxTileIndex - tileX) <= fuel)%nat ->
    outer_fuel fuel x tileX y tileY tiles = outer x tileX y tileY tiles.
Proof.
  unfold outer_loop.
  induction fuel as [| fuel IH]; intros x tileX y tileY tiles Hf.
  - replace (Z.to_nat (maxTileIndex - tileX)) with O by lia. reflexivity.
  - destruct (Z.ltb_spec tileX maxTileIndex) as [L | G].
    + replace (Z.to_nat (maxTileIndex - tileX))
        with (S (Z.to_nat (maxTileIndex - (tileX + 1)))) by lia.
      simpl. destruct (Rltb x vpRightEdge && (tileX <? maxTileIndex)%Z); [| reflexivity].
      apply IH. lia.
    + replace (Z.to_nat (maxTileIndex - tileX)) with O by lia.
      simpl. replace (tileX <? maxTileIndex)%Z with false
        by (symmetry; apply Z.ltb_ge; lia).
      rewrite andb_false_r. reflexivity.
Qed.

(** The equation of the outer [while]. *)
Lemma outer_loop_eq (x : R) (tileX : Z) (y : R) (tileY : Z) (tiles : set TileID) :
  outer x tileX y tileY tiles =
  if Rltb x vpRightEdge && (tileX <? maxTileIndex)%Z
  then outer (x + tileSize) (tileX + 1)%Z (IZR reset * tileSize) reset
         (inner tileX y tileY tiles)
  else tiles.
Proof.
  rewrite <- (outer_loop_fuel_enough (S (Z.to_nat (maxTileIndex - tileX)))) by lia.
  simpl. destruct (Rltb x vpRightEdge && (tileX <? maxTileIndex)%Z); [| reflexivity].
  apply outer_loop_fuel_enough. lia.
Qed.

(** *** The walk keeps the set duplicate-free *)



(** *** Which tiles the walk inserts *)

Hypothesis tileSize_pos : 0 < tileSize.

Lemma row_position_le (a b : Z) : (a <= b)%Z -> IZR a * tileSize <= IZR b * tileSize.
Proof.
  intros H. apply Rmult_le_compat_r; [lra | apply IZR_le; exact H].
Qed.

(** The inner loop, entered at row [tileY] with [y] the position of that
    row, inserts the tiles of column [tileX] from row [tileY] up to the last
    row that is below [vpTopEdge] and below [maxTileIndex]. *)
Lemma inner_loop_In (fuel : nat) :
  forall tileX tileY tiles t,
    (Z.to_nat (maxTileIndex - tileY) <= fuel)%nat ->
    In t (inner tileX (IZR tileY * tileSize) tileY tiles) <->
    In t tiles \/
    (tile_x t = tileX /\ tile_z t = to_int zoom /\
     (tileY <= tile_y t < maxTileIndex)%Z /\ IZR (tile_y t) * tileSize < vpTopEdge).
Proof.
  induction fuel as [| fuel IH]; intros tileX tileY tiles t Hf;
    rewrite inner_loop_eq.
  - replace (tileY <? maxTileIndex)%Z with false by (symmetry; apply Z.ltb_ge; lia).
    rewrite andb_false_r. split; [auto |]. intros [H | H]; [exact H | lia].
  - destruct (Rltb (IZR tileY * tileSize) vpTopEdge) eqn:Ey;
      [destruct (Z.ltb_spec tileY maxTileIndex) as [L | G] |]; simpl.
    + apply Rltb_true in Ey.
      replace (IZR tileY * tileSize + tileSize) with (IZR (tileY + 1) * tileSize)
        by (rewrite plus_IZR; ring).
      rewrite IH by lia. rewrite In_insert, TileID_eq.
      split.
      * intros [[E | H] | H]; [right | left; exact H | right].
        -- destruct E as [Ex [Ey' Ez]]. rewrite Ey'. repeat split; auto; lia.
        -- destruct H as [Ex [Ez [Hr Hy]]]. repeat split; auto; lia.
      * intros [H | [Ex [Ez [Hr Hy]]]]; [left; right; exact H |].
        destruct (Z.eq_dec (tile_y t) tileY) as [E | N].
        -- left; left. auto.
        -- right. repeat split; auto; lia.
    + split; [auto |]. intros [H | H]; [exact H | lia].
    + apply Rltb_false in Ey. split; [auto |].
      intros [H | [_ [_ [Hr Hy]]]]; [exact H |].
      pose proof (row_position_le tileY (tile_y t) (proj1 Hr)). lra.
Qed.

(** The outer loop, entered at column [tileX] with row [tileY], inserts for
    every column from [tileX] up to the last one left of [vpRightEdge] and
    below [maxTileIndex] the rows from the start row of the column: [tileY]
    for column [tileX], the reset row for the columns after it. *)
Lemma outer_loop_In (fuel : nat) :
  forall tileX tileY tiles t,
    (Z.to_nat (maxTileIndex - tileX) <= fuel)%nat ->
    In t (outer (IZR tileX * tileSize) tileX (IZR tileY * tileSize) tileY tiles) <->
    In t tiles \/
    (tile_z t = to_int zoom /\
     (tileX <= tile_x t < maxTileIndex)%Z /\ IZR (tile_x t) * tileSize < vpRightEdge /\
     ((if (tile_x t =? tileX)%Z then tileY else reset) <= tile_y t < maxTileIndex)%Z /\
     IZR (tile_y t) * tileSize < vpTopEdge).
Proof.
  induction fuel as [| fuel IH]; intros tileX tileY tiles t Hf;
    rewrite outer_loop_eq.
  - replace (tileX <? maxTileIndex)%Z with false by (symmetry; apply Z.ltb_ge; lia).
    rewrite andb_false_r. split; [auto |]. intros [H | H]; [exact H | lia].
  - destruct (Rltb (IZR tileX * tileSize) vpRightEdge) eqn:Ex;
      [destruct (Z.ltb_spec tileX maxTileIndex) as [L | G] |]; simpl.
    + apply Rltb_true in Ex.
      replace (IZR tileX * tileSize + tileSize) with (IZR (tileX + 1) * tileSize)
        by (rewrite plus_IZR; ring).
      rewrite IH by lia.
      rewrite (inner_loop_In (Z.to_nat (maxTileIndex - tileY))) by lia.
      split.
      * intros [[H | H] | H]; [left; exact H | right | right].
        -- destruct H as [Hx [Hz [Hr Hy]]]. rewrite Hx, Z.eqb_refl.
           repeat split; auto; lia.
        -- destruct H as [Hz [Hc [Hx [Hr Hy]]]].
           replace (tile_x t =? tileX)%Z with false by (symmetry; apply Z.eqb_neq; lia).
           destruct (tile_x t =? tileX + 1)%Z; repeat split; auto; lia.
      * intros [H | [Hz [Hc [Hx [Hr Hy]]]]]; [left; left; exact H |].
        destruct (Z.eqb_spec (tile_x t) tileX) as [E | N].
        -- left; right. repeat split; auto; lia.
        -- right. replace (if (tile_x t =? tileX + 1)%Z then reset else reset)
             with reset by (destruct (tile_x t =? tileX + 1)%Z; reflexivity).
           repeat split; auto; lia.
    + split; [auto |]. intros [H | H]; [exact H | lia].
    + apply Rltb_false in Ex. split; [auto |].
      intros [H | [_ [Hc [Hx _]]]]; [exact H |].
      pose proof (row_position_le tileX (tile_x t) (proj1 Hc)). lra.
Qed.

End TileWalkProperties.

(** ** Evaluating casts and powers of two *)

Lemma to_int_eq_nonneg (n : Z) (x : R) : 0 <= x -> IZR n <= x < IZR n + 1 -> to_int x = n.
Proof. intros H B. rewrite to_int_nonneg by exact H. apply Zfloor_eq. exact B. Qed.

Lemma to_int_eq_neg (n : Z) (x : R) : x < 0 -> IZR n - 1 < x <= IZR n -> to_int x = n.
Proof. intros H B. rewrite to_int_neg by exact H. apply Zceil_eq. exact B. Qed.

Lemma scaled_bounds (T a lo hi : R) :
  0 < T -> lo * T <= a -> a < hi * T -> lo <= a * (1 / T) < hi.
Proof.
  intros HT L U.
  assert (E : a * (1 / T) * T = a) by (field; lra).
  split.
  - apply Rmult_le_reg_r with T; [exact HT | lra].
  - apply Rmult_lt_reg_r with T; [exact HT | lra].
Qed.

Lemma scaled_bounds' (T a lo hi : R) :
  0 < T -> lo * T < a -> a <= hi * T -> lo < a * (1 / T) <= hi.
Proof.
  intros HT L U.
  assert (E : a * (1 / T) * T = a) by (field; lra).
  split.
  - apply Rmult_lt_reg_r with T; [exact HT | lra].
  - apply Rmult_le_reg_r with T; [exact HT | lra].
Qed.

Lemma to_int_scaled_nonneg (T a : R) (k : Z) :
  0 < T -> (0 <= k)%Z -> IZR k * T <= a < (IZR k + 1) * T -> to_int (a * (1 / T)) = k.
Proof.
  intros HT Hk [L U].
  pose proof (scaled_bounds T a (IZR k) (IZR k + 1) HT L U) as B.
  apply to_int_eq_nonneg; [| exact B].
  apply IZR_le in Hk. lra.
Qed.

Lemma to_int_scaled_neg (T a : R) (k : Z) :
  0 < T -> (k <= 0)%Z -> a < 0 -> (IZR k - 1) * T < a <= IZR k * T ->
  to_int (a * (1 / T)) = k.
Proof.
  intros HT Hk Ha [L U].
  pose proof (scaled_bounds' T a (IZR k - 1) (IZR k) HT L U) as B.
  apply to_int_eq_neg; [| exact B].
  assert (a * (1 / T) * T = a) by (field; lra).
  apply Rmult_lt_reg_r with T; [exact HT | lra].
Qed.

Lemma to_int_Rmax0_scaled (T a : R) (k : Z) :
  0 < T -> (0 <= k)%Z -> IZR k * T <= a < (IZR k + 1) * T ->
  to_int (Rmax 0 (a * (1 / T))) = k.
Proof.
  intros HT Hk B.
  assert (0 <= a * (1 / T)).
  { apply IZR_le in Hk.
    destruct (scaled_bounds T a (IZR k) (IZR k + 1) HT (proj1 B) (proj2 B)). lra. }
  rewrite Rmax_right by assumption. now apply to_int_scaled_nonneg.
Qed.

Lemma to_int_Rmax0_below (T a : R) :
  0 < T -> a < T -> to_int (Rmax 0 (a * (1 / T))) = 0%Z.
Proof.
  intros HT Ha.
  destruct (Rle_dec 0 a) as [P | N].
  - apply to_int_Rmax0_scaled; [exact HT | lia | simpl; lra].
  - rewrite Rmax_left; [apply (to_int_IZR 0) |].
    assert (a * (1 / T) * T = a) by (field; lra).
    apply Rmult_le_reg_r with T; [exact HT | lra].
Qed.

Lemma Rpower_2_IZR (k : Z) : Rpower 2 (IZR k) = powerRZ 2 k.
Proof. symmetry; apply powerRZ_Rpower; lra. Qed.


(** The reset row when the bottom edge lies at least a meter inside row [k]. *)
Lemma reset_tileY_scaled (T b : R) (k : Z) :
  0 < T -> (0 <= k)%Z -> IZR k * T + 1 <= b < (IZR k + 1) * T ->
  reset_tileY (1 / T) b = k.
Proof.
  intros HT Hk [L U]. unfold reset_tileY.
  assert (P : 0 <= IZR k * T) by (apply Rmult_le_pos; [apply (IZR_le 0), Hk | lra]).
  assert (B : 0 <= b) by lra.
  pose proof (Zfloor_bound b) as [F1 F2].
  rewrite (to_int_nonneg b B).
  apply to_int_scaled_nonneg; [exact HT | exact Hk | lra].
Qed.


Lemma tangram_HC_pos : 0 < HALF_CIRCUMFERENCE tangram.
Proof. simpl. unfold HC. lra. Qed.

(** ** The camera fields after [updateMatrices] *)

Section UpdateMatricesFields.
Variable ext : Externals.
Lemma updateMatrices_zoom (v : View) : m_zoom (updateMatrices ext v) = m_zoom v.
Proof. reflexivity. Qed.
Lemma updateMatrices_roll (v : View) : m_roll (updateMatrices ext v) = m_roll v.
Proof. reflexivity. Qed.
Lemma updateMatrices_x (v : View) : dvec3.x (m_pos (updateMatrices ext v)) = dvec3.x (m_pos v).
Proof. reflexivity. Qed.
Lemma updateMatrices_y (v : View) : dvec3.y (m_pos (updateMatrices ext v)) = dvec3.y (m_pos v).
Proof. reflexivity. Qed.
Lemma updateMatrices_height (v : View) :
  m_height (updateMatrices ext v) =
  IZR (m_vpHeight v) * (2 * HALF_CIRCUMFERENCE ext * Rpower 2 (- m_zoom v)) /
  (m_pixelsPerTile v * m_pixelScale v).
Proof. reflexivity. Qed.
Lemma updateMatrices_width (v : View) :
  m_width (updateMatrices ext v) = m_height (updateMatrices ext v) * m_aspect v.
Proof. reflexivity. Qed.
End UpdateMatricesFields.

(** ** The visible tiles *)

Section VisibleTiles.

Variable ext : Externals.
Hypothesis HALF_CIRCUMFERENCE_pos : 0 < HALF_CIRCUMFERENCE ext.

Lemma Rpower_pos (a b : R) : 0 < Rpower a b.
Proof. unfold Rpower. apply exp_pos. Qed.

Lemma tileSize_of_pos (v : View) : 0 < tileSize_of ext v.
Proof.
  unfold tileSize_of.
  pose proof (Rpower_pos 2 (IZR (- to_int (m_zoom v)))).
  apply Rmult_lt_0_compat; lra.
Qed.

Lemma updateTiles_unfold (v : View) :
  updateTiles ext v =
  set_m_visibleTiles
    (outer_loop (tileSize_of ext v) (invTileSize_of ext v) (vpRightEdge_of ext v)
       (vpTopEdge_of ext v) (vpBottomEdge_of ext v) (maxTileIndex_of v) (m_zoom v)
       (IZR (start_tileX ext v) * tileSize_of ext v) (start_tileX ext v)
       (IZR (start_tileY ext v) * tileSize_of ext v) (start_tileY ext v) [])
    v.
Proof. reflexivity. Qed.

(** The tiles that [updateTiles] leaves in the visible set, with positions
    and edges as real numbers: those of the columns from the start column up
    to the last one left of the right edge and below [maxTileIndex], and in
    each column the rows from the start row of the column up to the last one
    below the top edge and below [maxTileIndex]. *)
Theorem updateTiles_In (v : View) (t : TileID) :
  In t (m_visibleTiles (updateTiles ext v)) <->
  tile_z t = to_int (m_zoom v) /\
  (start_tileX ext v <= tile_x t < maxTileIndex_of v)%Z /\
  IZR (tile_x t) * tileSize_of ext v < vpRightEdge_of ext v /\
  (column_start ext v (tile_x t) <= tile_y t < maxTileIndex_of v)%Z /\
  IZR (tile_y t) * tileSize_of ext v < vpTopEdge_of ext v.
Proof.
  rewrite updateTiles_unfold. simpl.
  rewrite (outer_loop_In _ _ _ _ _ _ _ (tileSize_of_pos v)
             (Z.to_nat (maxTileIndex_of v - start_tileX ext v))) by lia.
  unfold column_start, reset_row. simpl. tauto.
Qed.


Lemma visibleTiles_flags (b c : bool) (v : View) :
  m_visibleTiles (set_m_changed b (set_m_dirty c v)) = m_visibleTiles v.
Proof. reflexivity. Qed.

Lemma update_visibleTiles (v : View) :
  m_dirty v = true ->
  m_visibleTiles (update ext v) = m_visibleTiles (updateTiles ext (updateMatrices ext v)).
Proof.
  intros D. rewrite update_dirty by exact D. apply visibleTiles_flags.
Qed.

End VisibleTiles.

(** ** The walk on a view whose bottom edge lies below the map *)

Lemma north_zoom : m_zoom north_view = 2.
Proof.
  change (glm_clamp 2 0 18 = 2). apply glm_clamp_id. lra.
Qed.

Lemma north_roll : m_roll north_view = 0. Proof. reflexivity. Qed.
Lemma north_x : dvec3.x (m_pos north_view) = 0. Proof. reflexivity. Qed.
Lemma north_y : dvec3.y (m_pos north_view) = 20000000. Proof. reflexivity. Qed.
Lemma north_dirty : m_dirty north_view = true. Proof. reflexivity. Qed.
Lemma north_vpHeight : m_vpHeight north_view = 600%Z. Proof. reflexivity. Qed.
Lemma north_aspect : m_aspect north_view = 800 / 600. Proof. reflexivity. Qed.
Lemma north_pixelScale : m_pixelScale north_view = 1. Proof. reflexivity. Qed.
Lemma north_pixelsPerTile : m_pixelsPerTile north_view = 256. Proof. reflexivity. Qed.

Lemma north_height : m_height north_matrices = 2.34375 * T2.
Proof.
  unfold north_matrices.
  rewrite updateMatrices_height, north_zoom, north_vpHeight, north_pixelScale,
    north_pixelsPerTile.
  rewrite <- opp_IZR, Rpower_2_IZR. 
  change (HALF_CIRCUMFERENCE tangram) with HC; unfold HC.
  simpl powerRZ. unfold T2. lra.
Qed.

Lemma north_width : m_width north_matrices = 3.125 * T2.
Proof.
  unfold north_matrices.
  rewrite updateMatrices_width. fold north_matrices.
  rewrite north_height, north_aspect. lra.
Qed.

Lemma north_tileSize : tileSize_of tangram north_matrices = T2.
Proof.
  unfold tileSize_of, north_matrices. rewrite updateMatrices_zoom, north_zoom.
  rewrite to_int_IZR, Rpower_2_IZR.
  change (HALF_CIRCUMFERENCE tangram) with HC; unfold HC.
  simpl powerRZ. unfold T2. lra.
Qed.

Lemma north_bound_width : bound_width north_matrices = 3.125 * T2.
Proof.
  unfold bound_width.
  rewrite north_height, north_width. unfold north_matrices.
  rewrite updateMatrices_roll, north_roll, sin_0, cos_0.
  rewrite Rmult_0_r, Rabs_R0, Rmult_1_r, Rabs_pos_eq; unfold T2; lra.
Qed.

Lemma north_bound_height : bound_height north_matrices = 2.34375 * T2.
Proof.
  unfold bound_height.
  rewrite north_height, north_width. unfold north_matrices.
  rewrite updateMatrices_roll, north_roll, sin_0, cos_0.
  rewrite Rmult_0_r, Rabs_R0, Rmult_1_r, Rabs_pos_eq; unfold T2; lra.
Qed.


Lemma north_left : vpLeftEdge_of tangram north_matrices = 0.4375 * T2.
Proof.
  unfold vpLeftEdge_of. rewrite north_bound_width. unfold north_matrices.
  rewrite updateMatrices_x, north_x.
  change (HALF_CIRCUMFERENCE tangram) with HC; unfold HC. unfold T2. lra.
Qed.

Lemma north_right : vpRightEdge_of tangram north_matrices = 3.5625 * T2.
Proof. unfold vpRightEdge_of. rewrite north_left, north_bound_width. lra. Qed.

Lemma north_bottom : vpBottomEdge_of tangram north_matrices = 0.828125 * T2 - 20000000.
Proof.
  unfold vpBottomEdge_of. rewrite north_bound_height. unfold north_matrices.
  rewrite updateMatrices_y, north_y.
  change (HALF_CIRCUMFERENCE tangram) with HC; unfold HC. unfold T2. lra.
Qed.

Lemma north_top : vpTopEdge_of tangram north_matrices = 3.171875 * T2 - 20000000.
Proof. unfold vpTopEdge_of. rewrite north_bottom, north_bound_height. lra. Qed.

Lemma north_start_tileX : start_tileX tangram north_matrices = 0%Z.
Proof.
  unfold start_tileX, invTileSize_of. rewrite north_left, north_tileSize.
  apply to_int_Rmax0_below; unfold T2; lra.
Qed.

Lemma north_start_tileY : start_tileY tangram north_matrices = 0%Z.
Proof.
  unfold start_tileY, invTileSize_of. rewrite north_bottom, north_tileSize.
  apply to_int_Rmax0_below; unfold T2; lra.
Qed.

Lemma north_reset_row : reset_row tangram north_matrices = (-1)%Z.
Proof.
  unfold reset_row, reset_tileY, invTileSize_of. rewrite north_bottom, north_tileSize.
  rewrite (to_int_eq_neg (-11703219) (0.828125 * T2 - 20000000))
    by (unfold T2; repeat split; lra).
  apply to_int_scaled_neg; unfold T2; repeat split; try lia; lra.
Qed.

Lemma north_maxTileIndex : maxTileIndex_of north_matrices = 4%Z.
Proof.
  unfold maxTileIndex_of, north_matrices.
  rewrite updateMatrices_zoom, north_zoom, Rpower_2_IZR.
  simpl powerRZ. replace (2 * (2 * 1)) with 4 by lra. apply to_int_IZR.
Qed.

Lemma north_tile_In (t : TileID) :
  In t (m_visibleTiles (update tangram north_view)) <->
  tile_z t = 2%Z /\ (0 <= tile_x t < 4)%Z /\
  ((if (tile_x t =? 0)%Z then 0 else -1) <= tile_y t <= 1)%Z.
Proof.
  rewrite update_visibleTiles by reflexivity.
  rewrite updateTiles_In by exact tangram_HC_pos.
  rewrite updateMatrices_zoom, north_zoom, to_int_IZR.
  fold north_matrices. unfold column_start.
  rewrite north_start_tileX,
    north_start_tileY, north_reset_row, north_maxTileIndex, north_tileSize,
    north_right, north_top.
  split.
  - intros [Hz [Hx [Hr [Hy Ht]]]]. repeat split; try lia.
    destruct (Z_le_gt_dec (tile_y t) 1) as [L | G]; [exact L |].
    assert (2 <= IZR (tile_y t)) by (apply IZR_le; lia).
    unfold T2 in Ht. lra.
  - intros [Hz [Hx Hy]]. repeat split; try lia.
    + assert (IZR (tile_x t) <= 3) by (apply IZR_le; lia). unfold T2. lra.
    + assert (IZR (tile_y t) <= 1) by (apply IZR_le; lia). unfold T2. lra.
Qed.

(** C1.  [north_view] is the view of [main] after [setZoom(2)] and
    [setPosition(0, 20000000)]; its zoom is 2.  [update] puts the tile
    [(1, -1, 2)] into its visible set, whose row index is negative: the tile
    is outside the bounds [0 <= y < 2^floor(zoom)]. *)
Theorem north_view_tile_out_of_bounds :
  m_dirty north_view = true /\
  m_zoom (update tangram north_view) = 2 /\
  In (mkTileID 1 (-1) 2) (m_visibleTiles (update tangram north_view)) /\
  ~ tile_in_bounds (m_zoom (update tangram north_view)) (mkTileID 1 (-1) 2).
Proof.
  split; [reflexivity |]. split; [| split].
  - rewrite update_zoom. apply north_zoom.
  - apply north_tile_In. simpl. lia.
  - unfold tile_in_bounds. simpl. lia.
Qed.

(** C2.  On [north_view] the row computed before the loops, and with it the
    first column of the emitted grid, starts at row 0, while the reset after
    each column sets [tileY] to -1, so that the second column begins at row
    -1: the columns do not begin at the same row. *)
Theorem north_view_columns_begin_at_different_rows :
  start_tileY tangram north_matrices = 0%Z /\
  reset_row tangram north_matrices = (-1)%Z /\
  column_begins_at (m_visibleTiles (update tangram north_view)) 0 0 /\
  column_begins_at (m_visibleTiles (update tangram north_view)) 1 (-1).
Proof.
  split; [apply north_start_tileY |]. split; [apply north_reset_row |].
  unfold column_begins_at. split; split.
  - exists 2%Z. apply north_tile_In. simpl. lia.
  - intros t Ht Ex. apply north_tile_In in Ht. rewrite Ex in Ht. simpl in Ht. lia.
  - exists 2%Z. apply north_tile_In. simpl. lia.
  - intros t Ht Ex. apply north_tile_In in Ht. rewrite Ex in Ht. simpl in Ht. lia.
Qed.

(** ** Roll *)

Section InverseTileSize.

Variable ext : Externals.
Hypothesis HALF_CIRCUMFERENCE_pos : 0 < HALF_CIRCUMFERENCE ext.


End InverseTileSize.







Section RollProperties.

Variable ext : Externals.

(** The view whose tiles [update] computes after [setRoll(r)]. *)
Local Abbreviation rolled v r := (updateMatrices ext (setRoll v r)).






End RollProperties.

(** ** Roll of a wide viewport *)

















(** ** Views for which the tiles are within bounds *)

Section AlignedViews.
Variable ext : Externals.
Hypothesis HALF_CIRCUMFERENCE_pos : 0 < HALF_CIRCUMFERENCE ext.






End AlignedViews.

(** ** A fractional zoom level *)

Lemma Rpower_2_8_5 : 3 <= Rpower 2 1.6 < 3.125.
Proof.
  set (a := Rpower 2 1.6).
  assert (P : 0 < a) by apply Rpower_pos.
  assert (E : a ^ 5 = 256).
  { rewrite <- Rpower_pow by exact P. unfold a. rewrite Rpower_mult.
    replace (1.6 * INR 5) with (INR 8) by (simpl; lra).
    rewrite Rpower_pow by lra. simpl. lra. }
  split.
  - destruct (Rle_dec 3 a) as [L | N]; [exact L | exfalso].
    assert (K : a ^ 5 <= 3 ^ 5) by (apply pow_incr; lra).
    simpl in K. lra.
  - destruct (Rlt_dec a 3.125) as [L | N]; [exact L | exfalso].
    assert (K : 3.125 ^ 5 <= a ^ 5) by (apply pow_incr; lra).
    simpl in K. lra.
Qed.

Lemma Rpower_2_neg_8_5 : 0.32 < / Rpower 2 1.6 <= 1 / 3.
Proof.
  pose proof Rpower_2_8_5 as [L U].
  set (a := Rpower 2 1.6) in *.
  assert (E : / a * a = 1) by (field; lra).
  assert (P : 0 < / a) by (apply Rinv_0_lt_compat; lra).
  split; nra.
Qed.

Lemma fractional_zoom : m_zoom fractional_matrices = 1.6.
Proof. change (glm_clamp 1.6 0 18 = 1.6). apply glm_clamp_id. lra. Qed.

Lemma to_int_1_6 : to_int 1.6 = 1%Z.
Proof. apply to_int_eq_nonneg; simpl; lra. Qed.

Lemma fractional_tileSize : tileSize_of tangram fractional_matrices = HC.
Proof.
  unfold tileSize_of. rewrite fractional_zoom, to_int_1_6, Rpower_2_IZR.
  change (HALF_CIRCUMFERENCE tangram) with HC; unfold HC.
  simpl powerRZ. unfold HC. lra.
Qed.

Lemma fractional_maxTileIndex : maxTileIndex_of fractional_matrices = 3%Z.
Proof.
  unfold maxTileIndex_of. rewrite fractional_zoom.
  pose proof Rpower_2_8_5. apply to_int_eq_nonneg; simpl; lra.
Qed.

Lemma fractional_height :
  m_height fractional_matrices = 4.6875 * HC * / Rpower 2 1.6.
Proof.
  unfold fractional_matrices. rewrite updateMatrices_height.
  change (m_zoom fractional_view) with (glm_clamp 1.6 0 18).
  rewrite glm_clamp_id by lra.
  change (m_vpHeight fractional_view) with 600%Z.
  change (m_pixelsPerTile fractional_view) with 256.
  change (m_pixelScale fractional_view) with 1.
  change (HALF_CIRCUMFERENCE tangram) with HC; unfold HC.
  rewrite Rpower_Ropp. unfold HC. lra.
Qed.

Lemma fractional_width :
  m_width fractional_matrices = 6.25 * HC * / Rpower 2 1.6.
Proof.
  unfold fractional_matrices. rewrite updateMatrices_width. fold fractional_matrices.
  rewrite fractional_height. change (m_aspect fractional_view) with (800 / 600). lra.
Qed.

Lemma fractional_bounds :
  bound_width fractional_matrices = 6.25 * HC * / Rpower 2 1.6 /\
  bound_height fractional_matrices = 4.6875 * HC * / Rpower 2 1.6.
Proof.
  pose proof Rpower_2_neg_8_5 as [L U].
  unfold bound_width, bound_height.
  change (m_roll fractional_matrices) with 0.
  rewrite sin_0, cos_0, fractional_height, fractional_width.
  rewrite !Rmult_0_r, Rabs_R0, !Rmult_1_r.
  rewrite !Rabs_pos_eq by (unfold HC; nra). split; lra.
Qed.

(** At the zoom level 1.6 the walk bounds the tile indices by
    [(int) pow(2, 1.6) = 3], not by [2^floor(1.6) = 2]: [update] puts the
    tile [(2, 0, 1)] into the visible set of [fractional_view]. *)
Theorem fractional_zoom_tile_out_of_bounds :
  m_dirty fractional_view = true /\
  0 <= m_zoom (update tangram fractional_view) <= s_maxZoom tangram /\
  In (mkTileID 2 0 1) (m_visibleTiles (update tangram fractional_view)) /\
  ~ tile_in_bounds (m_zoom (update tangram fractional_view)) (mkTileID 2 0 1).
Proof.
  pose proof Rpower_2_neg_8_5 as [L U].
  destruct fractional_bounds as [W H].
  set (p := / Rpower 2 1.6) in *.
  assert (Z : m_zoom (update tangram fractional_view) = 1.6).
  { rewrite update_zoom. change (glm_clamp 1.6 0 18 = 1.6). apply glm_clamp_id. lra. }
  split; [reflexivity |]. split; [rewrite Z; simpl; lra |]. split.
  - rewrite update_visibleTiles by reflexivity. fold fractional_matrices.
    apply updateTiles_In; [exact tangram_HC_pos |].
    assert (EL : vpLeftEdge_of tangram fractional_matrices = HC - 3.125 * HC * p).
    { unfold vpLeftEdge_of. rewrite W.
      change (dvec3.x (m_pos fractional_matrices)) with 0.
      change (HALF_CIRCUMFERENCE tangram) with HC; unfold HC. unfold HC. lra. }
    assert (EB : vpBottomEdge_of tangram fractional_matrices = HC - 2.34375 * HC * p).
    { unfold vpBottomEdge_of. rewrite H.
      change (dvec3.y (m_pos fractional_matrices)) with 0.
      change (HALF_CIRCUMFERENCE tangram) with HC; unfold HC. unfold HC. lra. }
    assert (SX : start_tileX tangram fractional_matrices = 0%Z).
    { unfold start_tileX, invTileSize_of. rewrite EL, fractional_tileSize.
      apply to_int_Rmax0_below; unfold HC; lra. }
    assert (RY : reset_row tangram fractional_matrices = 0%Z).
    { unfold reset_row, invTileSize_of. rewrite EB, fractional_tileSize.
      apply reset_tileY_scaled; unfold HC; simpl; try lia; lra. }
    unfold column_start, vpRightEdge_of, vpTopEdge_of.
    rewrite fractional_zoom, to_int_1_6, SX, RY, fractional_maxTileIndex,
      fractional_tileSize, EL, EB, W, H.
    simpl. unfold HC. repeat split; try lia; lra.
  - rewrite Z. unfold tile_in_bounds.
    replace (Zfloor 1.6) with 1%Z by (symmetry; apply Zfloor_eq; simpl; lra).
    simpl. lia.
Qed.

(** ** The view of [main] *)

Lemma main_zoom : m_zoom main_view = 16.
Proof. change (glm_clamp 16 0 18 = 16). apply glm_clamp_id. lra. Qed.









(** ** What the walk covers *)




Section CoverageOfUpdate.

Variable ext : Externals.
Hypothesis HALF_CIRCUMFERENCE_pos : 0 < HALF_CIRCUMFERENCE ext.



End CoverageOfUpdate.




(** ** Composing the mutators *)

Section MutatorComposition.

Variable ext : Externals.

(** Two translations add up, and translating back restores the camera. *)
Theorem translate_composes (v : View) (a b c d : R) :
  translate (translate v a b) c d = translate v (a + c) (b + d) /\
  camera (translate (translate v a b) (- a) (- b)) = camera v.
Proof.
  split.
  - unfold translate, setPosition, set_m_dirty, set_m_pos. simpl. do 2 f_equal; ring.
  - unfold camera, translate, setPosition. simpl. f_equal; ring.
Qed.


End MutatorComposition.

(** ** World and screen distances *)

Section Conversions.

Variable ext : Externals.

(** [toWorldDisplacement] scales a screen displacement by the world length
    of a pixel and rotates it: the squared length is scaled by the square of
    that length, rotating the result back by the roll gives the scaled
    screen displacement, and without roll there is no rotation. *)
Theorem toWorldDisplacement_rotates (v : View) (sx sy : R) :
  let m := toWorldDistance ext v 1 in
  let x := fst (toWorldDisplacement ext v sx sy) in
  let y := snd (toWorldDisplacement ext v sx sy) in
  x * x + y * y = (sx * sx + sy * sy) * (m * m) /\
  x * cos (m_roll v) - y * sin (m_roll v) = sx * m /\
  x * sin (m_roll v) + y * cos (m_roll v) = sy * m /\
  (m_roll v = 0 -> x = sx * m /\ y = sy * m).
Proof.
  intros m x y. unfold x, y, toWorldDisplacement. simpl. fold m.
  pose proof (sin2_cos2 (m_roll v)) as T. unfold Rsqr in T.
  set (c := cos (m_roll v)) in *. set (s := sin (m_roll v)) in *.
  split; [| split; [| split]].
  - transitivity ((sx * sx + sy * sy) * (m * m) * (s * s + c * c)); [ring |].
    rewrite T. ring.
  - transitivity (sx * m * (s * s + c * c)); [ring | rewrite T; ring].
  - transitivity (sy * m * (s * s + c * c)); [ring | rewrite T; ring].
  - intros R0. unfold c, s. rewrite R0, cos_0, sin_0. split; ring.
Qed.

(** [getBoundsRect] is the rectangle of the world extents centred on the
    position; [translate] moves it by the translation; for a view without
    roll and with extents of at least 0 the bounding box of the tile walk is
    this rectangle in map space, shifted by the half circumference and with
    the y axis reversed. *)
Theorem getBoundsRect_is_the_unrolled_box (v : View) (dx dy : R) :
  let b := getBoundsRect v in
  dmat2.m10 b - dmat2.m00 b = m_width v /\
  dmat2.m11 b - dmat2.m01 b = m_height v /\
  (dmat2.m00 b + dmat2.m10 b) / 2 = dvec3.x (m_pos v) /\
  (dmat2.m01 b + dmat2.m11 b) / 2 = dvec3.y (m_pos v) /\
  getBoundsRect (translate v dx dy) =
    dmat2.mk (dmat2.m00 b + dx) (dmat2.m01 b + dy) (dmat2.m10 b + dx) (dmat2.m11 b + dy) /\
  (m_roll v = 0 -> 0 <= m_width v -> 0 <= m_height v ->
   vpLeftEdge_of ext v = dmat2.m00 b + HALF_CIRCUMFERENCE ext /\
   vpRightEdge_of ext v = dmat2.m10 b + HALF_CIRCUMFERENCE ext /\
   vpBottomEdge_of ext v = HALF_CIRCUMFERENCE ext - dmat2.m11 b /\
   vpTopEdge_of ext v = HALF_CIRCUMFERENCE ext - dmat2.m01 b).
Proof.
  intros b. unfold b, getBoundsRect. simpl.
  split; [lra |]. split; [lra |]. split; [lra |]. split; [lra |]. split.
  - f_equal; ring.
  - intros R0 W H.
    unfold vpRightEdge_of, vpTopEdge_of, vpLeftEdge_of, vpBottomEdge_of,
      bound_width, bound_height.
    rewrite R0, sin_0, cos_0, !Rmult_0_r, Rabs_R0, !Rmult_1_r.
    rewrite !Rabs_pos_eq by assumption.
    repeat split; lra.
Qed.

(** After [setSize(w, h)] with [h] other than 0, [updateMatrices] sets the
    world extents to the world distances of the screen extents. *)
Theorem world_extents_are_screen_distances (v : View) (w h : Z) :
  h <> 0%Z ->
  m_width (updateMatrices ext (setSize v w h)) = toWorldDistance ext v (IZR w) /\
  m_height (updateMatrices ext (setSize v w h)) = toWorldDistance ext v (IZR h).
Proof.
  intros Hh. assert (N : IZR h <> 0) by (apply not_0_IZR; exact Hh).
  unfold toWorldDistance, updateMatrices, setSize. simpl. split.
  - unfold Rdiv. rewrite (Rmult_comm (m_pixelsPerTile v)).
    transitivity (IZR w * (2 * HALF_CIRCUMFERENCE ext * Rpower 2 (- m_zoom v))
                  * / (m_pixelScale v * m_pixelsPerTile v) * (IZR h * / IZR h)); [ring |].
    rewrite Rinv_r by exact N. ring.
  - unfold Rdiv. rewrite (Rmult_comm (m_pixelsPerTile v)). reflexivity.
Qed.

(** Zooming by [dz] within the range scales every world distance by
    [2^(-dz)]; one level in halves it. *)
Theorem zooming_scales_world_distance (v : View) (dz d : R) :
  0 <= m_zoom v + dz <= s_maxZoom ext ->
  toWorldDistance ext (zoom ext v dz) d = toWorldDistance ext v d * Rpower 2 (- dz) /\
  (dz = 1 -> toWorldDistance ext (zoom ext v dz) d = toWorldDistance ext v d / 2).
Proof.
  intros I.
  assert (Z : m_zoom (zoom ext v dz) = m_zoom v + dz).
  { unfold zoom. destruct (Rgtb dz 0); simpl; apply glm_clamp_id; exact I. }
  assert (P1 : m_pixelScale (zoom ext v dz) = m_pixelScale v)
    by (unfold zoom; destruct (Rgtb dz 0); reflexivity).
  assert (P2 : m_pixelsPerTile (zoom ext v dz) = m_pixelsPerTile v)
    by (unfold zoom; destruct (Rgtb dz 0); reflexivity).
  assert (E : toWorldDistance ext (zoom ext v dz) d
              = toWorldDistance ext v d * Rpower 2 (- dz)).
  { unfold toWorldDistance. rewrite Z, P1, P2.
    replace (- (m_zoom v + dz)) with (- m_zoom v + - dz) by ring.
    rewrite Rpower_plus. unfold Rdiv. ring. }
  split; [exact E |].
  intros ->. rewrite E, Rpower_Ropp, Rpower_1 by lra. reflexivity.
Qed.

End Conversions.

(** ** What the recompute depends on *)

Section CameraOnly.
Variable ext : Externals.

Lemma recompute_reads_camera (v v' : View) :
  m_dirty v = true -> m_dirty v' = true -> camera v = camera v' ->
  derived (update ext v) = derived (update ext v').
Proof.
  intros D D' C. rewrite !update_dirty by assumption.
  destruct v as [pr vt [px py pz] mv mp mvp rl zm iz wd ht vw vh asp ps ppt zi dt ch].
  destruct v' as [pr' vt' [px' py' pz'] mv' mp' mvp' rl' zm' iz' wd' ht' vw' vh' asp' ps'
                    ppt' zi' dt' ch'].
  unfold camera in C. simpl in C.
  injection C as -> -> -> -> -> -> -> -> -> -> -> ->.
  reflexivity.
Qed.

Lemma update_camera (v : View) : camera (update ext v) = camera v.
Proof. unfold update. destruct (m_dirty v); reflexivity. Qed.

Lemma setPosition_same_camera (u : View) :
  camera (setPosition u (dvec3.x (m_pos u)) (dvec3.y (m_pos u))) = camera u.
Proof. reflexivity. Qed.


(** A mutator always marks the view dirty: setting the position of an
    updated view to the position it has makes the next [update] recompute and
    report a change, and the recompute yields the derived state that was
    there. *)
Theorem same_value_mutation_recomputes_the_same (v : View) :
  m_dirty v = true ->
  let u := update ext v in
  let u' := update ext (setPosition u (dvec3.x (m_pos u)) (dvec3.y (m_pos u))) in
  m_dirty u = false /\ m_changed u' = true /\ m_dirty u' = false /\
  derived u' = derived u /\ camera u' = camera u.
Proof.
  intros D u u'.
  set (w := setPosition u (dvec3.x (m_pos u)) (dvec3.y (m_pos u))).
  assert (Dw : m_dirty w = true) by reflexivity.
  assert (Cw : camera w = camera v).
  { unfold w. rewrite setPosition_same_camera. apply update_camera. }
  split; [apply update_clears_dirty |].
  split; [unfold u'; fold w; rewrite (update_dirty ext w Dw); reflexivity |].
  split; [apply update_clears_dirty |].
  split.
  - unfold u'. fold w. unfold u. apply recompute_reads_camera; assumption.
  - unfold u'. fold w. rewrite update_camera. apply setPosition_same_camera.
Qed.

End CameraOnly.



Lemma zooming_scales_world_distance_witness :
  0 <= m_zoom main_view + 1 <= s_maxZoom tangram /\
  toWorldDistance tangram (zoom tangram main_view 1) 100
  = toWorldDistance tangram main_view 100 / 2.
Proof.
  assert (H : 0 <= m_zoom main_view + 1 <= s_maxZoom tangram)
    by (rewrite main_zoom; simpl; lra).
  split; [exact H |].
  exact (proj2 (zooming_scales_world_distance tangram main_view 1 100 H) eq_refl).
Defined.

Lemma world_extents_are_screen_distances_witness :
  600%Z <> 0%Z /\
  m_width (updateMatrices tangram (setSize main_view 800 600))
  = toWorldDistance tangram main_view (IZR 800).
Proof.
  assert (H : 600%Z <> 0%Z) by discriminate.
  split; [exact H |].
  exact (proj1 (world_extents_are_screen_distances tangram main_view 800 600 H)).
Defined.



Lemma same_value_mutation_recomputes_the_same_witness :
  m_dirty main_view = true /\
  m_changed
    (update tangram
       (setPosition (update tangram main_view)
          (dvec3.x (m_pos (update tangram main_view)))
          (dvec3.y (m_pos (update tangram main_view))))) = true.
Proof.
  split; [reflexivity |].
  exact (proj1 (proj2 (same_value_mutation_recomputes_the_same tangram main_view eq_refl))).
Defined.

(** ** Labels and the clip square *)

Lemma updateTransform_call (l : Label) (t : LabelTransform) (mvp : mat4.t) (size : vec2.t) :
  let call := snd (updateTransform l t mvp size) in
  let sx := screen_x mvp (m_modelPosition t) size in
  let sy := screen_y mvp (m_modelPosition t) size in
  call_alpha call =
  (if Rgtb sy (vec2.y size) || Rltb sy 0 then 0
   else if Rgtb sx (vec2.x size) || Rltb sx 0 then 0 else m_alpha t).
Proof.
  intros call sx sy.
  assert (Ex : call_x call = sx).
  { unfold call, sx, screen_x, ndc, updateTransform; simpl.
    unfold Rdiv; ring_simplify; lra. }
  assert (Ey : call_y call = sy).
  { unfold call, sy, screen_y, ndc, updateTransform; simpl.
    unfold Rdiv; ring_simplify; lra. }
  rewrite <- Ex, <- Ey. reflexivity.
Qed.

(** On a screen of positive size a label keeps its alpha exactly when the
    normalised device coordinates of its anchor lie in the square
    [[-1,1] x [-1,1]], and gets alpha 0 otherwise; the identifier and the
    rotation are handed to the text buffer as they are, and the label takes
    the new transform. *)
Theorem label_shown_iff_in_clip_square
  (l : Label) (t : LabelTransform) (mvp : mat4.t) (size : vec2.t) :
  0 < vec2.x size -> 0 < vec2.y size ->
  let call := snd (updateTransform l t mvp size) in
  let n := ndc mvp (m_modelPosition t) in
  (-1 <= vec4.x n <= 1 /\ -1 <= vec4.y n <= 1 -> call_alpha call = m_alpha t) /\
  (~ (-1 <= vec4.x n <= 1 /\ -1 <= vec4.y n <= 1) -> call_alpha call = 0) /\
  call_id call = m_id l /\ call_rotation call = m_rotation t /\
  fst (updateTransform l t mvp size) = mkLabel t (m_text l) (m_id l).
Proof.
  intros HW HH call n.
  pose proof (updateTransform_call l t mvp size) as A.
  cbv zeta in A. fold call in A.
  unfold screen_x, screen_y in A. fold n in A.
  set (W := vec2.x size) in *. set (H := vec2.y size) in *.
  set (nx := vec4.x n) in *. set (ny := vec4.y n) in *.
  split; [| split; [| split; [| split]]]; try reflexivity.
  - intros [[X0 X1] [Y0 Y1]]. rewrite A. unfold Rgtb.
    rewrite (Rltb_ge H), (Rltb_ge _ 0), (Rltb_ge W), (Rltb_ge _ 0) by nra.
    reflexivity.
  - intros N. rewrite A. unfold Rgtb.
    destruct (Rltb H ((1 - ny) * (H / 2))) eqn:B1; [reflexivity |].
    destruct (Rltb ((1 - ny) * (H / 2)) 0) eqn:B2; [reflexivity |].
    destruct (Rltb W ((nx + 1) * (W / 2))) eqn:B3; [reflexivity |].
    destruct (Rltb ((nx + 1) * (W / 2)) 0) eqn:B4; [reflexivity |].
    apply Rltb_false in B1, B2, B3, B4. exfalso. apply N. repeat split; nra.
Qed.

Lemma label_shown_iff_in_clip_square_witness :
  0 < vec2.x (vec2.mk 800 600) /\ 0 < vec2.y (vec2.mk 800 600) /\
  call_id (snd (updateTransform sample_label (label_at 0 0) mat4.identity
                  (vec2.mk 800 600))) = 0%Z.
Proof.
  assert (W : 0 < vec2.x (vec2.mk 800 600)) by (simpl; lra).
  assert (H : 0 < vec2.y (vec2.mk 800 600)) by (simpl; lra).
  split; [exact W |]. split; [exact H |].
  exact (proj1 (proj2 (proj2 (label_shown_iff_in_clip_square sample_label (label_at 0 0)
                                mat4.identity (vec2.mk 800 600) W H)))).
Defined.

(** ** The input callbacks *)

Section InputProperties.

Variable glfw : Glfw.

Lemma run_app (es1 es2 : list event) :
  forall s,
    run glfw s (es1 ++ es2) =
    (fst (run glfw (fst (run glfw s es1)) es2),
     snd (run glfw s es1) ++ snd (run glfw (fst (run glfw s es1)) es2))%list.
Proof.
  induction es1 as [| e es1 IH]; intros s; simpl.
  - destruct (run glfw s es2); reflexivity.
  - destruct (dispatch glfw s e) as [s1 g1]. rewrite IH.
    destruct (run glfw s1 es1) as [s2 g2]. simpl.
    destruct (run glfw s2 es2) as [s3 g3]. simpl.
    rewrite app_assoc. reflexivity.
Qed.

Lemma pan_sum_app (g1 g2 : list gesture) :
  pan_sum (g1 ++ g2) =
  (fst (pan_sum g1) + fst (pan_sum g2), snd (pan_sum g1) + snd (pan_sum g2)).
Proof.
  induction g1 as [| g g1 IH]; simpl.
  - destruct (pan_sum g2); simpl; f_equal; ring.
  - destruct g; try exact IH. rewrite IH. simpl. f_equal; ring.
Qed.

Lemma cursor_moved_while_pressed (s : Input) (x y : R) :
  cursor_pos_callback glfw s (GLFW_PRESS glfw) x y =
  (mkInput true (rotating s) (last_mouse_up s) x y,
   if was_panning s then [handlePanGesture (x - last_x_down s) (y - last_y_down s)]
   else []).
Proof. unfold cursor_pos_callback. rewrite Z.eqb_refl. reflexivity. Qed.

Lemma run_drag_cons (s : Input) (x y : R) (path : list (R * R)) :
  run glfw s (drag_events glfw ((x, y) :: path)) =
  (fst (run glfw (mkInput true (rotating s) (last_mouse_up s) x y)
          (drag_events glfw path)),
   (if was_panning s then [handlePanGesture (x - last_x_down s) (y - last_y_down s)]
    else []) ++
   snd (run glfw (mkInput true (rotating s) (last_mouse_up s) x y)
          (drag_events glfw path)))%list.
Proof.
  simpl. rewrite cursor_moved_while_pressed.
  destruct (run glfw _ (drag_events glfw path)). reflexivity.
Qed.

Lemma run_drag (path : list (R * R)) :
  forall s, path <> [] ->
    let s' := fst (run glfw s (drag_events glfw path)) in
    let gs := snd (run glfw s (drag_events glfw path)) in
    was_panning s' = true /\ rotating s' = rotating s /\
    last_mouse_up s' = last_mouse_up s /\
    (last_x_down s', last_y_down s') = last path (0, 0) /\
    forallb is_pan gs = true /\
    pan_sum gs = (fst (last path (0, 0)) - fst (drag_origin s path),
                  snd (last path (0, 0)) - snd (drag_origin s path)) /\
    List.length gs =
    (if was_panning s then List.length path else List.length path - 1)%nat.
Proof.
  induction path as [| p path IH]; intros s Hne; [contradiction |].
  destruct p as [x y]. rewrite run_drag_cons. cbv zeta. simpl fst. simpl snd.
  set (s1 := mkInput true (rotating s) (last_mouse_up s) x y).
  destruct path as [| q path].
  - simpl. unfold drag_origin. simpl.
    destruct (was_panning s); simpl; repeat split; f_equal; ring.
  - assert (Hq : q :: path <> []) by discriminate.
    specialize (IH s1 Hq). cbv zeta in IH.
    destruct IH as [I1 [I2 [I3 [I4 [I5 [I6 I7]]]]]].
    unfold drag_origin in I6. simpl was_panning in I6, I7.
    simpl last_x_down in I6. simpl last_y_down in I6. cbv iota in I6, I7.
    change (last ((x, y) :: q :: path) (0, 0)) with (last (q :: path) (0, 0)).
    split; [exact I1 |]. split; [exact I2 |]. split; [exact I3 |].
    split; [exact I4 |]. split; [| split].
    + rewrite forallb_app, I5. destruct (was_panning s); reflexivity.
    + rewrite pan_sum_app, I6. unfold drag_origin.
      destruct (was_panning s); simpl; f_equal; ring.
    + rewrite length_app, I7. destruct (was_panning s); simpl; lia.
Qed.

(** A click with movement is no tap.  When button 1 goes down, the cursor
    moves through [path] while the button is held, and the button goes up,
    the only gesture calls are pans, one for each step of the path; their
    displacements add up to the way from the first to the last point of the
    path; afterwards the callbacks are not panning, and the time of the last
    mouse-up is as before. *)
Theorem drag_pans_and_suppresses_the_tap
  (s : Input) (path : list (R * R)) (c c' : R * R) (t t' : R) (a : Z) :
  was_panning s = false -> path <> [] ->
  let r := run glfw s (press glfw c t :: drag_events glfw path ++ [release glfw c' t' a]) in
  forallb is_pan (snd r) = true /\
  List.length (snd r) = (List.length path - 1)%nat /\
  pan_sum (snd r) = (fst (last path (0, 0)) - fst (hd (0, 0) path),
                     snd (last path (0, 0)) - snd (hd (0, 0) path)) /\
  was_panning (fst r) = false /\ last_mouse_up (fst r) = last_mouse_up s /\
  rotating (fst r) = rotating s.
Proof.
  intros W Hne r. unfold r.
  change (press glfw c t :: drag_events glfw path ++ [release glfw c' t' a])
    with ([press glfw c t] ++ drag_events glfw path ++ [release glfw c' t' a])%list.
  rewrite run_app.
  assert (E0 : run glfw s [press glfw c t] =
               (mkInput false (rotating s) (last_mouse_up s) (fst c) (snd c), [])).
  { simpl. unfold mouse_button_callback. rewrite !Z.eqb_refl. simpl.
    destruct c. rewrite W. reflexivity. }
  rewrite E0. simpl fst. simpl snd. cbn [app].
  set (s0 := mkInput false (rotating s) (last_mouse_up s) (fst c) (snd c)).
  rewrite run_app.
  pose proof (run_drag path s0 Hne) as D. cbv zeta in D.
  destruct (run glfw s0 (drag_events glfw path)) as [s1 g1].
  simpl fst in *. simpl snd in *.
  destruct D as [D1 [D2 [D3 [D4 [D5 [D6 D7]]]]]].
  assert (E1 : mouse_button_callback glfw s1 c' t' (GLFW_MOUSE_BUTTON_1 glfw) a 0 =
               (mkInput false (rotating s1) (last_mouse_up s1) (last_x_down s1)
                  (last_y_down s1), [])).
  { unfold mouse_button_callback. rewrite Z.eqb_refl, D1. reflexivity. }
  rewrite E1. simpl. rewrite app_nil_r.
  unfold drag_origin in D6. simpl in D6, D7.
  repeat split; assumption.
Qed.

(** The first click never is a double tap: from the initial globals a
    release at a time of at least 0 is a tap, and the release of a second
    click is a double tap exactly when it comes less than [double_tap_time]
    after the first release. *)
Theorem first_click_taps_second_may_double_tap
  (c1 r1 c2 r2 : R * R) (p1 t1 p2 t2 : R) (a1 a2 : Z) :
  a1 <> GLFW_PRESS glfw -> a2 <> GLFW_PRESS glfw -> 0 <= t1 ->
  snd (run glfw initial_input
         [press glfw c1 p1; release glfw r1 t1 a1; press glfw c2 p2; release glfw r2 t2 a2])
  = [handleTapGesture (fst r1) (snd r1);
     if Rltb (t2 - t1) double_tap_time
     then handleDoubleTapGesture (fst r2) (snd r2)
     else handleTapGesture (fst r2) (snd r2)].
Proof.
  intros A1 A2 T1.
  apply Z.eqb_neq in A1, A2.
  destruct c1, r1, c2, r2.
  simpl. unfold mouse_button_callback. simpl.
  rewrite !Z.eqb_refl, A1, A2. simpl.
  rewrite (Rltb_ge _ double_tap_time) by (unfold double_tap_time; lra).
  simpl. destruct (Rltb (t2 - t1) double_tap_time); reflexivity.
Qed.

(** Events of other mouse buttons and cursor movements while button 1 is
    not held change no global and call no gesture handler. *)
Theorem foreign_events_are_ignored (s : Input) (es : list event) :
  Forall (foreign glfw) es -> run glfw s es = (s, []).
Proof.
  induction 1 as [| e es He _ IH]; [reflexivity |].
  destruct e; simpl in He; try contradiction; cbn [run dispatch].
  - unfold mouse_button_callback.
    apply Z.eqb_neq in He. rewrite He. cbn [negb]. rewrite IH. reflexivity.
  - unfold cursor_pos_callback.
    apply Z.eqb_neq in He. rewrite He. rewrite IH. reflexivity.
Qed.

(** After a key event, a scroll rotates by [scroll_multiplier * scrolly]
    when the shift bit of the key event's modifiers is set and pinches by
    [1 + scroll_multiplier * scrolly] at the cursor when it is not; neither
    event touches the globals of the mouse callbacks. *)
Theorem shift_turns_scroll_into_rotation
  (s : Input) (key scancode action mods : Z) (c : R * R) (sx sy : R) :
  let r := run glfw s [Key key scancode action mods; Scroll c sx sy] in
  (Z.land mods (GLFW_MOD_SHIFT glfw) <> 0%Z ->
   snd r = [handleRotateGesture (scroll_multiplier * sy)]) /\
  (Z.land mods (GLFW_MOD_SHIFT glfw) = 0%Z ->
   snd r = [handlePinchGesture (fst c) (snd c) (1 + scroll_multiplier * sy)]) /\
  was_panning (fst r) = was_panning s /\ last_mouse_up (fst r) = last_mouse_up s /\
  last_x_down (fst r) = last_x_down s /\ last_y_down (fst r) = last_y_down s.
Proof.
  intros r. unfold r. destruct c as [x y]. simpl.
  destruct (Z.eqb_spec (Z.land mods (GLFW_MOD_SHIFT glfw)) 0) as [E | N]; simpl;
    repeat split; intros; try reflexivity; contradiction.
Qed.

End InputProperties.

Lemma drag_pans_and_suppresses_the_tap_witness :
  was_panning initial_input = false /\ [(1, 1); (4, 5); (7, 9)] <> ([] : list (R * R)) /\
  pan_sum (snd (run glfw3 initial_input
                  (press glfw3 (1, 1) 0 ::
                   drag_events glfw3 [(1, 1); (4, 5); (7, 9)] ++
                   [release glfw3 (7, 9) 1 0]))) = (7 - 1, 9 - 1).
Proof.
  assert (N : [(1, 1); (4, 5); (7, 9)] <> ([] : list (R * R))) by discriminate.
  split; [reflexivity |]. split; [exact N |].
  exact (proj1 (proj2 (proj2 (drag_pans_and_suppresses_the_tap glfw3 initial_input
                                [(1, 1); (4, 5); (7, 9)] (1, 1) (7, 9) 0 1 0%Z eq_refl N)))).
Defined.

Lemma first_click_taps_second_may_double_tap_witness :
  0%Z <> GLFW_PRESS glfw3 /\ 0 <= 2 /\
  snd (run glfw3 initial_input
         [press glfw3 (3, 4) 1; release glfw3 (3, 4) 2 0;
          press glfw3 (3, 4) 3; release glfw3 (3, 4) 4 0])
  = [handleTapGesture 3 4;
     if Rltb (4 - 2) double_tap_time
     then handleDoubleTapGesture 3 4 else handleTapGesture 3 4].
Proof.
  assert (A : 0%Z <> GLFW_PRESS glfw3) by discriminate.
  assert (T : 0 <= 2) by lra.
  split; [exact A |]. split; [exact T |].
  exact (first_click_taps_second_may_double_tap glfw3 (3, 4) (3, 4) (3, 4) (3, 4)
           1 2 3 4 0%Z 0%Z A A T).
Defined.

Lemma foreign_events_are_ignored_witness :
  Forall (foreign glfw3) [MouseButton (0, 0) 0 1 1 0; CursorPos 0 5 5] /\
  run glfw3 initial_input [MouseButton (0, 0) 0 1 1 0; CursorPos 0 5 5]
  = (initial_input, []).
Proof.
  assert (F : Forall (foreign glfw3) [MouseButton (0, 0) 0 1 1 0; CursorPos 0 5 5])
    by (repeat constructor; simpl; discriminate).
  split; [exact F |].
  exact (foreign_events_are_ignored glfw3 initial_input _ F).
Defined.

(** ** The tile walk in machine arithmetic *)

Section MachineWalk.

Variables (tileSize invTileSize vpRightEdge vpTopEdge vpBottomEdge : binary32.t).
Variables (maxTileIndex : Z) (zoom : binary32.t).

Local Abbreviation inner_fuel := (machine.inner_loop_fuel tileSize vpTopEdge maxTileIndex zoom).
Local Abbreviation inner := (machine.inner_loop tileSize vpTopEdge maxTileIndex zoom).
Local Abbreviation outer_fuel :=
  (machine.outer_loop_fuel tileSize invTileSize vpRightEdge vpTopEdge vpBottomEdge
     maxTileIndex zoom).
Local Abbreviation outer :=
  (machine.outer_loop tileSize invTileSize vpRightEdge vpTopEdge vpBottomEdge
     maxTileIndex zoom).
Local Abbreviation reset := (machine.reset_tileY invTileSize vpBottomEdge).

Lemma machine_inner_loop_fuel_enough (fuel : nat) :
  forall tileX y tileY tiles,
    (Z.to_nat (maxTileIndex - tileY) <= fuel)%nat ->
    inner_fuel fuel tileX y tileY tiles = inner tileX y tileY tiles.
Proof.
  unfold machine.inner_loop.
  induction fuel as [| fuel IH]; intros tileX y tileY tiles Hf.
  - replace (Z.to_nat (maxTileIndex - tileY)) with O by lia. reflexivity.
  - destruct (Z.ltb_spec tileY maxTileIndex) as [L | G].
    + replace (Z.to_nat (maxTileIndex - tileY))
        with (S (Z.to_nat (maxTileIndex - (tileY + 1)))) by lia.
      simpl. destruct (binary32.ltb y vpTopEdge && (tileY <? maxTileIndex)%Z);
        [| reflexivity].
      apply IH. lia.
    + replace (Z.to_nat (maxTileIndex - tileY)) with O by lia.
      simpl. replace (tileY <? maxTileIndex)%Z with false
        by (symmetry; apply Z.ltb_ge; lia).
      rewrite andb_false_r. reflexivity.
Qed.

(** The equation of the inner [while]. *)
Lemma machine_inner_loop_eq (tileX : Z) (y : binary32.t) (tileY : Z) (tiles : set TileID) :
  inner tileX y tileY tiles =
  if binary32.ltb y vpTopEdge && (tileY <? maxTileIndex)%Z
  then inner tileX (binary32.add y tileSize) (tileY + 1)%Z
         (insert (mkTileID tileX tileY (binary32.to_int zoom)) tiles)
  else tiles.
Proof.
  rewrite <- (machine_inner_loop_fuel_enough (S (Z.to_nat (maxTileIndex - tileY)))) by lia.
  simpl. destruct (binary32.ltb y vpTopEdge && (tileY <? maxTileIndex)%Z); [| reflexivity].
  apply machine_inner_loop_fuel_enough. lia.
Qed.

Lemma machine_outer_loop_fuel_enough (fuel : nat) :
  forall x tileX y tileY tiles,
    (Z.to_nat (maxTileIndex - tileX) <= fuel)%nat ->
    outer_fuel fuel x tileX y tileY tiles = outer x tileX y tileY tiles.
Proof.
  unfold machine.outer_loop.
  induction fuel as [| fuel IH]; intros x tileX y tileY tiles Hf.
  - replace (Z.to_nat (maxTileIndex - tileX)) with O by lia. reflexivity.
  - destruct (Z.ltb_spec tileX maxTileIndex) as [L | G].
    + replace (Z.to_nat (maxTileIndex - tileX))
        with (S (Z.to_nat (maxTileIndex - (tileX + 1)))) by lia.
      simpl. destruct (binary32.ltb x vpRightEdge && (tileX <? maxTileIndex)%Z);
        [| reflexivity].
      apply IH. lia.
    + replace (Z.to_nat (maxTileIndex - tileX)) with O by lia.
      simpl. replace (tileX <? maxTileIndex)%Z with false
        by (symmetry; apply Z.ltb_ge; lia).
      rewrite andb_false_r. reflexivity.
Qed.

(** The equation of the outer [while]. *)
Lemma machine_outer_loop_eq (x : binary32.t) (tileX : Z) (y : binary32.t) (tileY : Z)
  (tiles : set TileID) :
  outer x tileX y tileY tiles =
  if binary32.ltb x vpRightEdge && (tileX <? maxTileIndex)%Z
  then outer (binary32.add x tileSize) (tileX + 1)%Z
         (binary32.mul (binary32.of_Z reset) tileSize) reset
         (inner tileX y tileY tiles)
  else tiles.
Proof.
  rewrite <- (machine_outer_loop_fuel_enough (S (Z.to_nat (maxTileIndex - tileX)))) by lia.
  simpl. destruct (binary32.ltb x vpRightEdge && (tileX <? maxTileIndex)%Z); [| reflexivity].
  apply machine_outer_loop_fuel_enough. lia.
Qed.

End MachineWalk.

(** At whole-number zoom levels and roll 0 the machine model agrees with the
    real one where no edge is near a tile boundary: the main view has the
    sixteen tiles of columns and rows 32766 to 32769. *)
Lemma machine_main_tiles (libm : machine.Libm) :
  machine.m_visibleTiles (machine.update libm machine_main_view) =
  map (fun p => mkTileID (fst p) (snd p) 16)
    (list_prod [32766; 32767; 32768; 32769]%Z [32766; 32767; 32768; 32769]%Z).
Proof. vm_compute. reflexivity. Qed.

(** The walk can drop a column that the box overlaps.  For [west_view] the
    right edge of the box is the [float] 20037510, and column 32768 begins
    at [32768 * tileSize = 20037508], left of it.  The walk reaches that
    column with [x] accumulated over four additions of [tileSize], which is
    20037510, not below the right edge: it stops after column 32767 and
    leaves twelve tiles. *)
Theorem accumulated_position_drops_a_column (libm : machine.Libm) :
  machine.m_visibleTiles (machine.update libm west_view) =
    map (fun p => mkTileID (fst p) (snd p) 16)
      (list_prod [32764; 32765; 32766; 32767]%Z [32767; 32768; 32769]%Z) /\
  (forall r : Z,
     ~ In (mkTileID 32768 r 16) (machine.m_visibleTiles (machine.update libm west_view))) /\
  machine.vpRightEdge_of libm (machine.updateMatrices libm west_view)
    = binary32.of_Z 20037510 /\
  column_edge libm (machine.updateMatrices libm west_view) 32768 = binary32.of_Z 20037508 /\
  binary32.ltb (column_edge libm (machine.updateMatrices libm west_view) 32768)
    (machine.vpRightEdge_of libm (machine.updateMatrices libm west_view)) = true /\
  machine.start_index libm (machine.updateMatrices libm west_view)
    (machine.vpLeftEdge_of libm (machine.updateMatrices libm west_view)) = 32764%Z /\
  walk_position libm (machine.updateMatrices libm west_view) 4 = binary32.of_Z 20037510.
Proof.
  assert (E : machine.m_visibleTiles (machine.update libm west_view) =
              map (fun p => mkTileID (fst p) (snd p) 16)
                (list_prod [32764; 32765; 32766; 32767]%Z [32767; 32768; 32769]%Z))
    by (vm_compute; reflexivity).
  split; [exact E |]. split.
  - intros r H. rewrite E in H. simpl in H.
    repeat (destruct H as [H | H]; [inversion H |]). exact H.
  - repeat split; vm_compute; reflexivity.
Qed.

(** The walk can add a column that lies beside the box.  For [close_view]
    the right edge of the box is the [float] 20036590, and
    [131066 * tileSize] is 20036590 as well, not left of it.  The walk
    reaches column 131066 with the accumulated [x = 20036588] and inserts
    its four tiles. *)
Theorem accumulated_position_adds_a_column (libm : machine.Libm) :
  In (mkTileID 131066 131086 18) (machine.m_visibleTiles (machine.update libm close_view)) /\
  List.length (machine.m_visibleTiles (machine.update libm close_view)) = 20%nat /\
  machine.vpRightEdge_of libm (machine.updateMatrices libm close_view)
    = binary32.of_Z 20036590 /\
  column_edge libm (machine.updateMatrices libm close_view) 131066 = binary32.of_Z 20036590 /\
  binary32.ltb (column_edge libm (machine.updateMatrices libm close_view) 131066)
    (machine.vpRightEdge_of libm (machine.updateMatrices libm close_view)) = false /\
  machine.start_index libm (machine.updateMatrices libm close_view)
    (machine.vpLeftEdge_of libm (machine.updateMatrices libm close_view)) = 131062%Z /\
  walk_position libm (machine.updateMatrices libm close_view) 4 = binary32.of_Z 20036588.
Proof.
  assert (E : machine.m_visibleTiles (machine.update libm close_view) =
              map (fun p => mkTileID (fst p) (snd p) 18)
                (list_prod [131062; 131063; 131064; 131065; 131066]%Z
                   [131083; 131084; 131085; 131086]%Z))
    by (vm_compute; reflexivity).
  split; [rewrite E; simpl; tauto |].
  split; [rewrite E; reflexivity |].
  repeat split; vm_compute; reflexivity.
Qed.
